(** * goseek: the slsk wire-protocol codec (pkg/slsk/protocol.go)

    A shallow embedding of the framing layer (PackMessage, ReadMessage,
    prefixLength), the primitive layer (writeInt32, readInt32, writeInt64,
    readInt64, WriteString, ReadString) and the message layer (the Encode
    and Decode functions), with the properties of the codec proved over it.

    Modelling choices, all taken from the Go source:
    - Go's [int32]/[int64] values are [Z]; a conversion [int32(x)] is the
      two's complement wrap-around, written out in [Int.int32].
    - Go's [int] is taken to be 64 bits wide, so that [len(x)] is exact;
      the widening conversions of the source ([int(length)] and [int64(l)]
      of an [int32], [int64(len(s))] of an [int]) keep the value and are
      left out, the narrowing ones ([int32(len(x))]) are kept.
    - [[]byte] is [ByteSlice]: Go tells the nil slice from a non-nil slice
      of length 0, and so does the model.
    - Go's [string] is a [string]: a sequence of 8-bit characters.
    - [*bytes.Buffer] is the list of bytes written so far, passed along.
    - an [io.Reader] is the list of bytes not yet read, held in the state
      of a small state monad, next to a log of the buffers the decoders
      allocate with [make]. *)

From Stdlib Require Import ZArith List Lia String Bool DecimalString DecimalZ.
From coqutil Require Import Byte Word.LittleEndianList.
Import ListNotations.
Local Open Scope Z_scope.

(** ** Fixed-width integers *)

Module Int.

(** The value of a [w]-bit two's complement integer holding [z]. *)
Definition wrap (w : Z) (z : Z) : Z := (z + 2 ^ (w - 1)) mod 2 ^ w - 2 ^ (w - 1).

(** The conversions [int32(z)] and [int64(z)]. *)
Definition int32 (z : Z) : Z := wrap 32 z.
Definition int64 (z : Z) : Z := wrap 64 z.

Definition is_int32 (z : Z) : Prop := - 2 ^ 31 <= z < 2 ^ 31.
Definition is_int64 (z : Z) : Prop := - 2 ^ 63 <= z < 2 ^ 63.

Definition max_int32 : Z := 2 ^ 31 - 1.

End Int.

(** ** Byte slices, buffers and errors *)

(** A value of type [[]byte]. *)
Inductive ByteSlice : Type :=
| Nil                          (* the nil slice *)
| Slice (data : list byte).    (* a non-nil slice and its elements *)

Definition elems (s : ByteSlice) : list byte :=
  match s with
  | Nil => []
  | Slice data => data
  end.

(** [len(s)] for a slice, and for a string. *)
Definition len (s : ByteSlice) : Z := Z.of_nat (List.length (elems s)).
Definition slen (s : string) : Z := Z.of_nat (String.length s).

(** [[]byte(s)] and [string(b)]. *)
Definition bytes_of_string (s : string) : list byte := list_byte_of_string s.
Definition string_of_bytes (b : list byte) : string := string_of_list_byte b.

(** [bytes.Equal(a, b)]: the same length and the same bytes; a nil slice
    equals an empty one. *)
Definition bytes_Equal (a b : ByteSlice) : bool :=
  if list_eq_dec Byte.byte_eq_dec (elems a) (elems b) then true else false.

(** The slice [make([]byte, n)] of [n] zero bytes. *)
Definition zeros (n : Z) : ByteSlice := Slice (repeat Byte.x00 (Z.to_nat n)).

(** [bytes.Buffer]: what has been written to it, in order. *)
Definition Buffer : Type := list byte.

Definition new_Buffer : Buffer := [].

(** [buf.Write(p)] and [buf.WriteString(s)]; neither fails. *)
Definition Buffer_Write (buf : Buffer) (p : ByteSlice) : Buffer := buf ++ elems p.
Definition Buffer_WriteString (buf : Buffer) (s : string) : Buffer :=
  buf ++ bytes_of_string s.

(** [buf.Bytes()]: the unread portion of the buffer. A buffer that was
    never written to has a nil backing array, and slicing nil gives nil. *)
Definition Buffer_Bytes (buf : Buffer) : ByteSlice :=
  match buf with
  | [] => Nil
  | _ :: _ => Slice buf
  end.

(** The errors the package returns: the two of package [io] that
    [io.ReadFull] and [binary.Read] produce, and one constructor per
    [fmt.Errorf] call of the source, carrying the formatted number. *)
Inductive error : Type :=
| EOF                            (* io.EOF *)
| ErrUnexpectedEOF               (* io.ErrUnexpectedEOF *)
| ErrMessageLength (length : Z)  (* "invalid message length: %d" *)
| ErrStringTooLarge (n : Z)      (* "String too large, throwing input: %d" *)
| ErrStringLength (l : Z)        (* "invalid string length %d" *)
| ErrChunkLength (chLen : Z).    (* "invalid chunk length %d" *)

(** The three kinds of failure of the codec's error taxonomy, and the kind
    of each error value: a read that met the end of the stream is a
    truncated read, whether no byte or only some bytes were there. *)
Inductive ErrorKind : Type := TruncatedRead | InvalidLength | StringTooLarge.

Definition kind (e : error) : ErrorKind :=
  match e with
  | EOF | ErrUnexpectedEOF => TruncatedRead
  | ErrMessageLength _ | ErrStringLength _ | ErrChunkLength _ => InvalidLength
  | ErrStringTooLarge _ => StringTooLarge
  end.

(** A call fails with an error of kind [k]: its error result is not nil
    and is of that kind. *)
Definition fails_with {A} (r : A * option error) (k : ErrorKind) : Prop :=
  exists e, snd r = Some e /\ kind e = k.

(** ** Message types *)

Definition MsgType : Type := Z.

Definition MsgHello : MsgType := 1.
Definition MsgRoomsList : MsgType := 10.
Definition MsgJoinRoom : MsgType := 11.
Definition MsgRoomMembers : MsgType := 12.
Definition MsgFileList : MsgType := 20.
Definition MsgFileAdvert : MsgType := 21.
Definition MsgGetFile : MsgType := 30.
Definition MsgFileChunk : MsgType := 31.
Definition MsgTransferInit : MsgType := 50.
Definition MsgChat : MsgType := 40.
Definition MsgPing : MsgType := 99.

(** The table [MsgNames], as the association list of its entries. *)
Definition MsgNames : list (MsgType * string) :=
  [ (MsgHello, "HELLO"); (MsgRoomsList, "ROOMS_LIST"); (MsgJoinRoom, "JOIN_ROOM");
    (MsgRoomMembers, "ROOM_MEMBERS"); (MsgFileList, "FILE_LIST");
    (MsgFileAdvert, "FILE_ADVERT"); (MsgGetFile, "GET_FILE");
    (MsgFileChunk, "FILE_CHUNK"); (MsgTransferInit, "TRANSFER_INIT");
    (MsgChat, "CHAT"); (MsgPing, "PING") ]%string.

(** [MsgNames[m]] with its [ok] flag. *)
Fixpoint lookup (m : MsgType) (table : list (MsgType * string)) : option string :=
  match table with
  | [] => None
  | (k, v) :: rest => if k =? m then Some v else lookup m rest
  end.

Definition known (m : MsgType) : bool :=
  match lookup m MsgNames with Some _ => true | None => false end.

(** ** Little-endian integers on the wire *)

(** [binary.Write(buf, binary.LittleEndian, n)] for an [int32] and an
    [int64]: the low 4 (8) bytes of the two's complement representation,
    least significant first. Writing to a [bytes.Buffer] never fails. *)
Definition put32 (n : Z) : list byte := le_split 4 n.
Definition put64 (n : Z) : list byte := le_split 8 n.

(** What [binary.Read] makes of 4 (8) bytes read into an [int32]
    ([int64]). *)
Definition get32 (bs : list byte) : Z := Int.int32 (le_combine bs).
Definition get64 (bs : list byte) : Z := Int.int64 (le_combine bs).

Definition writeInt32 (buf : Buffer) (n : Z) : Buffer * option error :=
  (buf ++ put32 n, None).

Definition writeInt64 (buf : Buffer) (n : Z) : Buffer * option error :=
  (buf ++ put64 n, None).

(** ** Readers *)

(** The state the decoders run in: the bytes of the reader that are still
    unread, and the sizes of the buffers the decoders have allocated with
    [make([]byte, n)], oldest first. *)
Record state : Type := mkState { input : list byte; allocs : list Z }.

Definition M (A : Type) : Type := state -> A * state.

Definition ret {A} (a : A) : M A := fun st => (a, st).

Definition bind {A B} (c : M A) (k : A -> M B) : M B :=
  fun st => let (a, st') := c st in k a st'.

(** The pattern [x, err := c; if err != nil { return h(err) }; k(x)]. *)
Definition try {A B} (c : M (A * option error)) (h : error -> B) (k : A -> M B) : M B :=
  fun st =>
    let (r, st') := c st in
    match snd r with
    | Some err => (h err, st')
    | None => k (fst r) st'
    end.

Notation "x <- c ;; k" := (bind c (fun x => k))
  (at level 61, c at next level, right associativity).
Notation "x <- c 'orelse' h ;; k" := (try c h (fun x => k))
  (at level 61, c at next level, h at next level, right associativity).

(** [bytes.NewReader(b)]: a reader over the bytes of [b]. *)
Definition NewReader (b : ByteSlice) : state := mkState (elems b) [].

(** [make([]byte, n)]: a fresh buffer of [n] zero bytes. *)
Definition make (n : Z) : M (list byte) :=
  fun st => (repeat Byte.x00 (Z.to_nat n), mkState (input st) (allocs st ++ [n])).

(** [io.ReadFull(r, buf)]: reads exactly [len(buf)] bytes into [buf]. With
    nothing to read for a buffer that is not empty the error is [io.EOF];
    with fewer bytes than asked for, those are read and the error is
    [io.ErrUnexpectedEOF]. The result is [buf] after the call. *)
Definition ReadFull (buf : list byte) : M (list byte * option error) :=
  fun st =>
    let n := List.length buf in
    let avail := List.length (input st) in
    if (n <=? avail)%nat then
      ((firstn n (input st), None), mkState (skipn n (input st)) (allocs st))
    else
      match input st with
      | [] => ((buf, Some EOF), st)
      | _ :: _ =>
          ((input st ++ skipn avail buf, Some ErrUnexpectedEOF), mkState [] (allocs st))
      end.

(** The error of a read that asked for more bytes than [inp] holds. *)
Definition eof_error (inp : list byte) : error :=
  match inp with
  | [] => EOF
  | _ :: _ => ErrUnexpectedEOF
  end.

(** The [int32] that the first four bytes of a stream hold. *)
Definition leading_int32 (inp : list byte) : Z := get32 (firstn 4 inp).

(** The fields of the frame header a stream starts with, and what follows
    the header. *)
Definition frame_length (inp : list byte) : Z := leading_int32 inp.
Definition frame_type (inp : list byte) : Z := leading_int32 (skipn 4 inp).
Definition frame_body (inp : list byte) : list byte := skipn 4 (skipn 4 inp).

(** [binary.Read(r, binary.LittleEndian, &n)] for a fixed-size [n] of
    [size] bytes: [io.ReadFull] into a scratch buffer of the library's. *)
Definition binary_Read (size : nat) : M (list byte * option error) :=
  ReadFull (repeat Byte.x00 size).

Definition readInt32 : M (Z * option error) :=
  bs <- binary_Read 4 orelse (fun err => (0, Some err)) ;;
  ret (get32 bs, None).

Definition readInt64 : M (Z * option error) :=
  bs <- binary_Read 8 orelse (fun err => (0, Some err)) ;;
  ret (get64 bs, None).

(** ** Framing *)

(** [prefixLength] and [PackMessage] call [binary.Write] on an [int32]
    directly, which is what [writeInt32] does; both drop its error, and
    [PackMessage] writes the payload only when [len(payload) > 0]. *)
Definition prefixLength (data : ByteSlice) : ByteSlice :=
  let buf := new_Buffer in
  let buf := fst (writeInt32 buf (Int.int32 (len data))) in
  let buf := Buffer_Write buf data in
  Buffer_Bytes buf.

Definition PackMessage (msg : MsgType) (payload : ByteSlice) : ByteSlice :=
  let buf := new_Buffer in
  let buf := fst (writeInt32 buf (Int.int32 msg)) in
  let buf := if 0 <? len payload then Buffer_Write buf payload else buf in
  prefixLength (Buffer_Bytes buf).

(** [ReadMessage(r)], with [r] the reader of the state. The payload is
    declared nil and is made and filled only when [remaining > 0]. *)
Definition ReadMessage : M (MsgType * ByteSlice * option error) :=
  length <- readInt32 orelse (fun err => (0, Nil, Some err)) ;;
  msgID <- readInt32 orelse (fun err => (0, Nil, Some err)) ;;
  let remaining := length - 4 in
  if remaining <? 0 then
    ret (0, Nil, Some (ErrMessageLength length))
  else if 0 <? remaining then
    payload <- make remaining ;;
    payload <- ReadFull payload orelse (fun err => (0, Nil, Some err)) ;;
    ret (msgID, Slice payload, None)
  else
    ret (msgID, Nil, None).

(** What [ReadMessage] does on a stream, case by case. *)
Inductive ReadMessage_case (inp : list byte) (a : list Z) : Prop :=
| RM_no_length :
    (List.length inp < 4)%nat ->
    ReadMessage (mkState inp a) = ((0, Nil, Some (eof_error inp)), mkState [] a) ->
    ReadMessage_case inp a
| RM_no_type :
    (4 <= List.length inp < 8)%nat ->
    ReadMessage (mkState inp a) =
      ((0, Nil, Some (eof_error (skipn 4 inp))), mkState [] a) ->
    ReadMessage_case inp a
| RM_invalid :
    (8 <= List.length inp)%nat -> frame_length inp < 4 ->
    ReadMessage (mkState inp a) =
      ((0, Nil, Some (ErrMessageLength (frame_length inp))), mkState (frame_body inp) a) ->
    ReadMessage_case inp a
| RM_empty :
    (8 <= List.length inp)%nat -> frame_length inp = 4 ->
    ReadMessage (mkState inp a) =
      ((frame_type inp, Nil, None), mkState (frame_body inp) a) ->
    ReadMessage_case inp a
| RM_read :
    (8 <= List.length inp)%nat -> 4 < frame_length inp ->
    (Z.to_nat (frame_length inp - 4) <= List.length (frame_body inp))%nat ->
    ReadMessage (mkState inp a) =
      ((frame_type inp, Slice (firstn (Z.to_nat (frame_length inp - 4)) (frame_body inp)), None),
       mkState (skipn (Z.to_nat (frame_length inp - 4)) (frame_body inp))
               (a ++ [frame_length inp - 4])) ->
    ReadMessage_case inp a
| RM_truncated :
    (8 <= List.length inp)%nat -> 4 < frame_length inp ->
    (List.length (frame_body inp) < Z.to_nat (frame_length inp - 4))%nat ->
    ReadMessage (mkState inp a) =
      ((0, Nil, Some (eof_error (frame_body inp))), mkState [] (a ++ [frame_length inp - 4])) ->
    ReadMessage_case inp a.

(** ** Strings *)

Definition maxStringLen : Z := 50000000.

Definition WriteString (buf : Buffer) (s : string) : Buffer * option error :=
  if maxStringLen <? slen s then
    (buf, Some (ErrStringTooLarge (slen s)))
  else
    let (buf, err) := writeInt32 buf (Int.int32 (slen s)) in
    match err with
    | Some e => (buf, Some e)
    | None => (Buffer_WriteString buf s, None)
    end.

(** The wire form of a string: its length in bytes as an [int32], then
    its bytes. *)
Definition string_wire (s : string) : list byte := put32 (slen s) ++ bytes_of_string s.

(** The string [string(make([]byte, n))] of [n] zero bytes. *)
Definition zero_string (n : Z) : string := string_of_bytes (elems (zeros n)).

(** The buffers [ReadString] allocates on its way to returning [s]. *)
Definition string_allocs (s : string) : list Z :=
  if slen s =? 0 then [] else [slen s].

Definition ReadString : M (string * option error) :=
  l <- readInt32 orelse (fun err => (EmptyString, Some err)) ;;
  if (l <? 0) || (maxStringLen <? l) then
    ret (EmptyString, Some (ErrStringLength l))
  else if l =? 0 then
    ret (EmptyString, None)
  else
    b <- make l ;;
    b <- ReadFull b orelse (fun err => (EmptyString, Some err)) ;;
    ret (string_of_bytes b, None).

(** ** Message encoders and decoders *)

(** Each decoder is the body of the Go function run on the reader
    [r := bytes.NewReader(payload)]; the [_from] function is that body,
    and the decoder returns what it returns. *)

Definition EncodeHello (username : string) : ByteSlice :=
  let buf := new_Buffer in
  let buf := fst (WriteString buf username) in
  PackMessage MsgHello (Buffer_Bytes buf).

Definition DecodeHello_from : M (string * option error) := ReadString.

Definition DecodeHello (payload : ByteSlice) : string * option error :=
  fst (DecodeHello_from (NewReader payload)).

Definition EncodePing : ByteSlice := PackMessage MsgPing Nil.

Definition EncodeFileAdvert (fileID name : string) (size : Z) : ByteSlice :=
  let buf := new_Buffer in
  let buf := fst (WriteString buf fileID) in
  let buf := fst (WriteString buf name) in
  let buf := fst (writeInt64 buf size) in
  PackMessage MsgFileAdvert (Buffer_Bytes buf).

Definition DecodeFileAdvert_from : M (string * string * Z * option error) :=
  fileID <- ReadString orelse (fun err => (EmptyString, EmptyString, 0, Some err)) ;;
  name <- ReadString orelse (fun err => (EmptyString, EmptyString, 0, Some err)) ;;
  size <- readInt64 orelse (fun err => (EmptyString, EmptyString, 0, Some err)) ;;
  ret (fileID, name, size, None).

Definition DecodeFileAdvert (payload : ByteSlice) : string * string * Z * option error :=
  fst (DecodeFileAdvert_from (NewReader payload)).

Definition EncodeGetFile (transferID fileID : string) (offset : Z) : ByteSlice :=
  let buf := new_Buffer in
  let buf := fst (WriteString buf transferID) in
  let buf := fst (WriteString buf fileID) in
  let buf := fst (writeInt64 buf offset) in
  PackMessage MsgGetFile (Buffer_Bytes buf).

Definition DecodeGetFile_from : M (string * string * Z * option error) :=
  transferID <- ReadString orelse (fun err => (EmptyString, EmptyString, 0, Some err)) ;;
  fileID <- ReadString orelse (fun err => (EmptyString, EmptyString, 0, Some err)) ;;
  offset <- readInt64 orelse (fun err => (EmptyString, EmptyString, 0, Some err)) ;;
  ret (transferID, fileID, offset, None).

Definition DecodeGetFile (payload : ByteSlice) : string * string * Z * option error :=
  fst (DecodeGetFile_from (NewReader payload)).

(** The payload [EncodeFileChunk] hands to [PackMessage]. *)
Definition FileChunk_payload (transferID : string) (offset : Z) (chunk : ByteSlice) : ByteSlice :=
  let buf := new_Buffer in
  let buf := fst (WriteString buf transferID) in
  let buf := fst (writeInt64 buf offset) in
  let buf := fst (writeInt32 buf (Int.int32 (len chunk))) in
  let buf := if 0 <? len chunk then Buffer_Write buf chunk else buf in
  Buffer_Bytes buf.

Definition EncodeFileChunk (transferID : string) (offset : Z) (chunk : ByteSlice) : ByteSlice :=
  PackMessage MsgFileChunk (FileChunk_payload transferID offset chunk).

Definition maxChunkLen : Z := 100 * 1024 * 1024.

Definition DecodeFileChunk_from : M (string * Z * ByteSlice * option error) :=
  transferID <- ReadString orelse (fun err => (EmptyString, 0, Nil, Some err)) ;;
  offset <- readInt64 orelse (fun err => (EmptyString, 0, Nil, Some err)) ;;
  chLen <- readInt32 orelse (fun err => (EmptyString, 0, Nil, Some err)) ;;
  if (chLen <? 0) || (maxChunkLen <? chLen) then
    ret (EmptyString, 0, Nil, Some (ErrChunkLength chLen))
  else if chLen =? 0 then
    ret (transferID, offset, Nil, None)
  else
    chunk <- make chLen ;;
    chunk <- ReadFull chunk orelse (fun err => (EmptyString, 0, Nil, Some err)) ;;
    ret (transferID, offset, Slice chunk, None).

Definition DecodeFileChunk (payload : ByteSlice) : string * Z * ByteSlice * option error :=
  fst (DecodeFileChunk_from (NewReader payload)).

(** The payload of a frame: what follows the length and the type tag. *)
Definition frame_payload (frame : ByteSlice) : list byte := skipn 8 (elems frame).

(** ** Names of message types and error codes *)

(** [fmt.Sprintf("%d", n)]: the decimal digits of [n], after a minus sign
    when [n] is negative. *)
Definition Sprintf_d (n : Z) : string := NilZero.string_of_int (Z.to_int n).

(** [func (m MsgType) String() string]. *)
Definition MsgType_String (m : MsgType) : string :=
  match lookup m MsgNames with
  | Some s => s
  | None => ("Msg(" ++ Sprintf_d (Int.int32 m) ++ ")")%string
  end.

Definition ErrorCode : Type := Z.

Definition ErrNone : ErrorCode := 0.
Definition ErrInvalid : ErrorCode := 1.
Definition ErrNotFound : ErrorCode := 2.
Definition ErrPermission : ErrorCode := 3.
Definition ErrInternal : ErrorCode := 10.

(** The table [ErrorMessages], as the association list of its entries. *)
Definition ErrorMessages : list (ErrorCode * string) :=
  [ (ErrNone, "no error"); (ErrInvalid, "invalid request"); (ErrNotFound, "not found");
    (ErrPermission, "permission denied"); (ErrInternal, "internal error") ]%string.

(** [func (e ErrorCode) String() string]. *)
Definition ErrorCode_String (e : ErrorCode) : string :=
  match lookup e ErrorMessages with
  | Some s => s
  | None => ("ErrorCode(" ++ Sprintf_d (Int.int32 e) ++ ")")%string
  end.

(** ** Shapes of results *)

(** A result is all or nothing: with an error, every other result is the
    zero value [zero] of its type, and the error is a truncated read or an
    invalid length. *)
Definition all_or_nothing {A} (zero : A) (r : A * option error) : Prop :=
  match snd r with
  | None => True
  | Some e => fst r = zero /\ (kind e = TruncatedRead \/ kind e = InvalidLength)
  end.

(** A computation allocates within [cap]: the buffers it allocates with
    [make] are added to the log, and each has more than 0 and at most
    [cap] bytes. *)
Definition capped (cap : Z) {A} (c : M A) : Prop :=
  forall st, exists extra,
    allocs (snd (c st)) = allocs st ++ extra
    /\ Forall (fun n => 0 < n <= cap) extra.

(** * Properties *)

(** ** Integers and their wire form *)

Module IntFacts.
Import Int.

Lemma int32_id z : is_int32 z -> int32 z = z.
Proof.
  unfold is_int32, int32, wrap. change (2 ^ (32 - 1)) with (2 ^ 31).
  change (2 ^ 31) with 2147483648. change (2 ^ 32) with 4294967296.
  intros H. rewrite Z.mod_small by lia. lia.
Qed.

Lemma int64_id z : is_int64 z -> int64 z = z.
Proof.
  unfold is_int64, int64, wrap. change (2 ^ (64 - 1)) with (2 ^ 63).
  change (2 ^ 63) with 9223372036854775808.
  change (2 ^ 64) with 18446744073709551616.
  intros H. rewrite Z.mod_small by lia. lia.
Qed.

Lemma int32_range z : is_int32 (int32 z).
Proof.
  unfold is_int32, int32, wrap. change (2 ^ (32 - 1)) with (2 ^ 31).
  change (2 ^ 31) with 2147483648. change (2 ^ 32) with 4294967296.
  pose proof (Z.mod_pos_bound (z + 2147483648) 4294967296). lia.
Qed.

Lemma int32_mod z : int32 (z mod 2 ^ 32) = int32 z.
Proof.
  unfold int32, wrap. f_equal. apply Zplus_mod_idemp_l.
Qed.

Lemma int64_mod z : int64 (z mod 2 ^ 64) = int64 z.
Proof.
  unfold int64, wrap. f_equal. apply Zplus_mod_idemp_l.
Qed.

Lemma int32_idem z : int32 (int32 z) = int32 z.
Proof. apply int32_id, int32_range. Qed.

End IntFacts.

Lemma put32_length n : List.length (put32 n) = 4%nat.
Proof. apply length_le_split. Qed.

Lemma put64_length n : List.length (put64 n) = 8%nat.
Proof. apply length_le_split. Qed.

(** Reading back what was written gives the written number, reduced to
    the width of the field. *)
Lemma get32_put32 n : get32 (put32 n) = Int.int32 n.
Proof.
  unfold get32, put32. rewrite le_combine_split.
  change (Z.of_nat 4 * 8) with 32. apply IntFacts.int32_mod.
Qed.

Lemma get64_put64 n : get64 (put64 n) = Int.int64 n.
Proof.
  unfold get64, put64. rewrite le_combine_split.
  change (Z.of_nat 8 * 8) with 64. apply IntFacts.int64_mod.
Qed.

Lemma put32_int32 n : put32 (Int.int32 n) = put32 n.
Proof.
  apply le_combine_inj.
  - now rewrite !put32_length.
  - unfold put32. rewrite !le_combine_split. change (Z.of_nat 4 * 8) with 32.
    unfold Int.int32, Int.wrap. change (2 ^ (32 - 1)) with 2147483648.
    change (2 ^ 32) with 4294967296.
    rewrite Zminus_mod_idemp_l.
    replace (n + 2147483648 - 2147483648) with n by lia. reflexivity.
Qed.

(** The four bytes of a length field, read as an unsigned number. *)
Lemma le_combine_put32 n : le_combine (put32 n) = n mod 2 ^ 32.
Proof. unfold put32. now rewrite le_combine_split. Qed.

(** ** Slices, strings and buffers *)

Lemma len_nonneg p : 0 <= len p.
Proof. unfold len. lia. Qed.

Lemma len_zero_elems p : len p = 0 -> elems p = [].
Proof.
  unfold len. intros H. destruct (elems p); [reflexivity | simpl in H; lia].
Qed.

Lemma bytes_Equal_true a b : bytes_Equal a b = true <-> elems a = elems b.
Proof.
  unfold bytes_Equal.
  destruct (list_eq_dec Byte.byte_eq_dec (elems a) (elems b)); split; congruence.
Qed.

Lemma len_Slice l : len (Slice l) = Z.of_nat (List.length l).
Proof. reflexivity. Qed.

(** [make([]byte, n)] has [n] elements. *)
Lemma len_zeros n : 0 <= n -> len (zeros n) = n.
Proof.
  intros H. unfold zeros. rewrite len_Slice, repeat_length. apply Z2Nat.id, H.
Qed.

Lemma bytes_of_string_length s : List.length (bytes_of_string s) = String.length s.
Proof.
  unfold bytes_of_string, list_byte_of_string. rewrite length_map.
  induction s as [|c s IH]; [reflexivity|].
  cbn [list_ascii_of_string List.length String.length]. now rewrite IH.
Qed.

Lemma string_of_bytes_of_string s : string_of_bytes (bytes_of_string s) = s.
Proof. apply string_of_list_byte_of_string. Qed.

Lemma slen_nonneg s : 0 <= slen s.
Proof. unfold slen. lia. Qed.

Lemma slen_zero s : slen s = 0 -> s = EmptyString.
Proof. unfold slen. destruct s; [reflexivity | simpl; lia]. Qed.

Lemma Buffer_Bytes_cons buf : buf <> [] -> Buffer_Bytes buf = Slice buf.
Proof. destruct buf; [congruence | reflexivity]. Qed.

Lemma put32_not_nil n rest : put32 n ++ rest <> [].
Proof.
  intros H. apply (f_equal (@List.length byte)) in H.
  rewrite length_app, put32_length in H. simpl in H. lia.
Qed.

(** ** Reading from a stream *)

Lemma kind_eof_error inp : kind (eof_error inp) = TruncatedRead.
Proof. now destruct inp. Qed.

Lemma ReadFull_app buf bs rest a :
  List.length buf = List.length bs ->
  ReadFull buf (mkState (bs ++ rest) a) = ((bs, None), mkState rest a).
Proof.
  intros H. unfold ReadFull. cbn [input allocs].
  destruct (Nat.leb_spec (List.length buf) (List.length (bs ++ rest))) as [_|Hlt].
  - rewrite H, firstn_app, firstn_all, Nat.sub_diag, firstn_0, app_nil_r.
    rewrite skipn_app, skipn_all, Nat.sub_diag, skipn_0. reflexivity.
  - rewrite length_app in Hlt. lia.
Qed.

Lemma ReadFull_short buf inp a :
  (List.length inp < List.length buf)%nat ->
  ReadFull buf (mkState inp a) =
    ((inp ++ skipn (List.length inp) buf, Some (eof_error inp)), mkState [] a).
Proof.
  intros H. unfold ReadFull. cbn [input allocs].
  destruct (Nat.leb_spec (List.length buf) (List.length inp)) as [Hle|_]; [lia|].
  destruct inp; reflexivity.
Qed.

Lemma make_eq n inp a :
  make n (mkState inp a) = (repeat Byte.x00 (Z.to_nat n), mkState inp (a ++ [n])).
Proof. reflexivity. Qed.

Lemma readInt32_app bs rest a :
  List.length bs = 4%nat ->
  readInt32 (mkState (bs ++ rest) a) = ((get32 bs, None), mkState rest a).
Proof.
  intros H. unfold readInt32, try, binary_Read.
  rewrite ReadFull_app by (rewrite repeat_length; congruence). reflexivity.
Qed.

Lemma readInt32_short inp a :
  (List.length inp < 4)%nat ->
  readInt32 (mkState inp a) = ((0, Some (eof_error inp)), mkState [] a).
Proof.
  intros H. unfold readInt32, try, binary_Read.
  rewrite ReadFull_short by (rewrite repeat_length; exact H). reflexivity.
Qed.

Lemma readInt64_app bs rest a :
  List.length bs = 8%nat ->
  readInt64 (mkState (bs ++ rest) a) = ((get64 bs, None), mkState rest a).
Proof.
  intros H. unfold readInt64, try, binary_Read.
  rewrite ReadFull_app by (rewrite repeat_length; congruence). reflexivity.
Qed.

Lemma readInt64_short inp a :
  (List.length inp < 8)%nat ->
  readInt64 (mkState inp a) = ((0, Some (eof_error inp)), mkState [] a).
Proof.
  intros H. unfold readInt64, try, binary_Read.
  rewrite ReadFull_short by (rewrite repeat_length; exact H). reflexivity.
Qed.

(** A stream of at least [n] bytes is its first [n] bytes and the rest. *)
Lemma split_at (n : nat) (inp : list byte) :
  (n <= List.length inp)%nat ->
  inp = firstn n inp ++ skipn n inp /\ List.length (firstn n inp) = n.
Proof.
  intros H. split; [symmetry; apply firstn_skipn | apply firstn_length_le, H].
Qed.

Lemma readInt32_long inp a :
  (4 <= List.length inp)%nat ->
  readInt32 (mkState inp a) = ((leading_int32 inp, None), mkState (skipn 4 inp) a).
Proof.
  intros H. destruct (split_at 4 inp H) as [E L].
  rewrite E at 1. now rewrite readInt32_app.
Qed.

Lemma leading_int32_range inp : Int.is_int32 (leading_int32 inp).
Proof. apply IntFacts.int32_range. Qed.

Lemma leading_int32_app bs rest :
  List.length bs = 4%nat -> leading_int32 (bs ++ rest) = get32 bs.
Proof.
  intros H. unfold leading_int32.
  now rewrite firstn_app, H, Nat.sub_diag, firstn_0, app_nil_r, <- H, firstn_all.
Qed.

(** Filling a fresh buffer of [n] bytes from the stream. *)
Lemma ReadFull_make n inp a :
  (Z.to_nat n <= List.length inp)%nat ->
  ReadFull (repeat Byte.x00 (Z.to_nat n)) (mkState inp a) =
    ((firstn (Z.to_nat n) inp, None), mkState (skipn (Z.to_nat n) inp) a).
Proof.
  intros H. destruct (split_at _ inp H) as [E L].
  rewrite E at 1. apply ReadFull_app. now rewrite repeat_length, L.
Qed.

Lemma ReadFull_make_short n inp a :
  (List.length inp < Z.to_nat n)%nat ->
  exists b, ReadFull (repeat Byte.x00 (Z.to_nat n)) (mkState inp a) =
    ((b, Some (eof_error inp)), mkState [] a).
Proof.
  intros H. eexists. apply ReadFull_short. now rewrite repeat_length.
Qed.

(** ** ReadString *)

Section ReadString_cases.

Variables (inp : list byte) (a : list Z).
Hypothesis Hlen : (4 <= List.length inp)%nat.

Let l := leading_int32 inp.
Let rest := skipn 4 inp.

Lemma ReadString_invalid :
  l < 0 \/ maxStringLen < l ->
  ReadString (mkState inp a) = ((EmptyString, Some (ErrStringLength l)), mkState rest a).
Proof.
  intros H. unfold ReadString, try. rewrite readInt32_long by exact Hlen.
  cbn [fst snd]. fold l rest.
  replace ((l <? 0) || (maxStringLen <? l)) with true; [reflexivity|].
  symmetry. apply orb_true_iff. destruct H; [left|right]; now apply Z.ltb_lt.
Qed.

Lemma ReadString_bounds_ok :
  0 <= l <= maxStringLen -> (l <? 0) || (maxStringLen <? l) = false.
Proof.
  intros H. apply orb_false_iff. split; apply Z.ltb_ge; lia.
Qed.

Lemma ReadString_zero :
  l = 0 ->
  ReadString (mkState inp a) = ((EmptyString, None), mkState rest a).
Proof.
  intros H. unfold ReadString, try. rewrite readInt32_long by exact Hlen.
  cbn [fst snd]. fold l rest.
  rewrite ReadString_bounds_ok by (rewrite H; unfold maxStringLen; lia).
  rewrite H. reflexivity.
Qed.

Lemma ReadString_read :
  0 < l <= maxStringLen -> (Z.to_nat l <= List.length rest)%nat ->
  ReadString (mkState inp a) =
    ((string_of_bytes (firstn (Z.to_nat l) rest), None),
     mkState (skipn (Z.to_nat l) rest) (a ++ [l])).
Proof.
  intros H Hr. unfold ReadString, try. rewrite readInt32_long by exact Hlen.
  cbn [fst snd]. fold l rest.
  rewrite ReadString_bounds_ok by lia.
  replace (l =? 0) with false by (symmetry; apply Z.eqb_neq; lia).
  unfold bind. rewrite make_eq, ReadFull_make by exact Hr. reflexivity.
Qed.

Lemma ReadString_truncated :
  0 < l <= maxStringLen -> (List.length rest < Z.to_nat l)%nat ->
  ReadString (mkState inp a) =
    ((EmptyString, Some (eof_error rest)), mkState [] (a ++ [l])).
Proof.
  intros H Hr. unfold ReadString, try. rewrite readInt32_long by exact Hlen.
  cbn [fst snd]. fold l rest.
  rewrite ReadString_bounds_ok by lia.
  replace (l =? 0) with false by (symmetry; apply Z.eqb_neq; lia).
  unfold bind. rewrite make_eq.
  destruct (ReadFull_make_short l rest (a ++ [l]) Hr) as [b ->]. reflexivity.
Qed.

End ReadString_cases.

Lemma ReadString_no_length inp a :
  (List.length inp < 4)%nat ->
  ReadString (mkState inp a) = ((EmptyString, Some (eof_error inp)), mkState [] a).
Proof.
  intros H. unfold ReadString, try. now rewrite readInt32_short by exact H.
Qed.

Lemma skipn_exact {A} (bs rest : list A) n :
  List.length bs = n -> skipn n (bs ++ rest) = rest.
Proof.
  intros <-. now rewrite skipn_app, skipn_all, Nat.sub_diag, skipn_0.
Qed.

Lemma firstn_exact {A} (bs rest : list A) n :
  List.length bs = n -> firstn n (bs ++ rest) = bs.
Proof.
  intros <-. now rewrite firstn_app, firstn_all, Nat.sub_diag, firstn_0, app_nil_r.
Qed.

(** [ReadString] reads back a string written by [WriteString], and stops
    right behind it. *)
Lemma ReadString_encoded s rest a :
  slen s <= maxStringLen ->
  ReadString (mkState (put32 (slen s) ++ bytes_of_string s ++ rest) a) =
    ((s, None), mkState rest (a ++ string_allocs s)).
Proof.
  intros H. pose proof (slen_nonneg s) as H0.
  set (inp := put32 (slen s) ++ bytes_of_string s ++ rest).
  assert (Hlen : (4 <= List.length inp)%nat).
  { unfold inp. rewrite length_app, put32_length. lia. }
  assert (Hl : leading_int32 inp = slen s).
  { unfold inp. rewrite leading_int32_app, get32_put32 by apply put32_length.
    apply IntFacts.int32_id. unfold Int.is_int32, maxStringLen in *.
    change (2 ^ 31) with 2147483648. lia. }
  assert (Hr : skipn 4 inp = bytes_of_string s ++ rest).
  { unfold inp. apply skipn_exact, put32_length. }
  unfold string_allocs. destruct (Z.eqb_spec (slen s) 0) as [Hz|Hnz].
  - rewrite ReadString_zero by congruence.
    rewrite Hr, (slen_zero s Hz), app_nil_r. reflexivity.
  - assert (Hn : Z.to_nat (slen s) = List.length (bytes_of_string s)).
    { rewrite bytes_of_string_length. unfold slen. apply Nat2Z.id. }
    rewrite ReadString_read; rewrite ?Hl, ?Hr; try lia.
    + rewrite Hn, firstn_exact, skipn_exact by reflexivity.
      now rewrite string_of_bytes_of_string.
    + rewrite Hn, length_app. lia.
Qed.

(** ** ReadMessage *)

Lemma ReadMessage_no_length inp a :
  (List.length inp < 4)%nat ->
  ReadMessage (mkState inp a) = ((0, Nil, Some (eof_error inp)), mkState [] a).
Proof.
  intros H. unfold ReadMessage, try. now rewrite readInt32_short by exact H.
Qed.

Lemma ReadMessage_no_type inp a :
  (4 <= List.length inp < 8)%nat ->
  ReadMessage (mkState inp a) =
    ((0, Nil, Some (eof_error (skipn 4 inp))), mkState [] a).
Proof.
  intros H. unfold ReadMessage, try. rewrite readInt32_long by lia.
  cbn [fst snd]. rewrite readInt32_short by (rewrite length_skipn; lia).
  reflexivity.
Qed.

Section ReadMessage_cases.

Variables (inp : list byte) (a : list Z).
Hypothesis Hlen : (8 <= List.length inp)%nat.

Let L := frame_length inp.
Let tag := frame_type inp.
Let body := frame_body inp.

Lemma ReadMessage_header (B : Type) (h : error -> B) (k : Z -> Z -> M B) :
  (length <- readInt32 orelse h ;; msgID <- readInt32 orelse h ;; k length msgID)
    (mkState inp a) = k L tag (mkState body a).
Proof.
  unfold try. rewrite readInt32_long by lia. cbn [fst snd].
  rewrite readInt32_long by (rewrite length_skipn; lia). reflexivity.
Qed.

Lemma ReadMessage_invalid :
  L < 4 ->
  ReadMessage (mkState inp a) = ((0, Nil, Some (ErrMessageLength L)), mkState body a).
Proof.
  intros H. unfold ReadMessage. rewrite ReadMessage_header.
  replace (L - 4 <? 0) with true by (symmetry; apply Z.ltb_lt; lia).
  reflexivity.
Qed.

Lemma ReadMessage_empty :
  L = 4 ->
  ReadMessage (mkState inp a) = ((tag, Nil, None), mkState body a).
Proof.
  intros H. unfold ReadMessage. rewrite ReadMessage_header. now rewrite H.
Qed.

Lemma ReadMessage_read :
  4 < L -> (Z.to_nat (L - 4) <= List.length body)%nat ->
  ReadMessage (mkState inp a) =
    ((tag, Slice (firstn (Z.to_nat (L - 4)) body), None),
     mkState (skipn (Z.to_nat (L - 4)) body) (a ++ [L - 4])).
Proof.
  intros H Hb. unfold ReadMessage. rewrite ReadMessage_header.
  replace (L - 4 <? 0) with false by (symmetry; apply Z.ltb_ge; lia).
  replace (0 <? L - 4) with true by (symmetry; apply Z.ltb_lt; lia).
  unfold bind, try. rewrite make_eq, ReadFull_make by exact Hb. reflexivity.
Qed.

Lemma ReadMessage_truncated :
  4 < L -> (List.length body < Z.to_nat (L - 4))%nat ->
  ReadMessage (mkState inp a) =
    ((0, Nil, Some (eof_error body)), mkState [] (a ++ [L - 4])).
Proof.
  intros H Hb. unfold ReadMessage. rewrite ReadMessage_header.
  replace (L - 4 <? 0) with false by (symmetry; apply Z.ltb_ge; lia).
  replace (0 <? L - 4) with true by (symmetry; apply Z.ltb_lt; lia).
  unfold bind, try. rewrite make_eq.
  destruct (ReadFull_make_short (L - 4) body (a ++ [L - 4]) Hb) as [b ->].
  reflexivity.
Qed.

End ReadMessage_cases.

Lemma ReadMessage_cases inp a : ReadMessage_case inp a.
Proof.
  destruct (Nat.lt_ge_cases (List.length inp) 4) as [H4|H4].
  { apply RM_no_length; [exact H4 | now apply ReadMessage_no_length]. }
  destruct (Nat.lt_ge_cases (List.length inp) 8) as [H8|H8].
  { apply RM_no_type; [lia | apply ReadMessage_no_type; lia]. }
  destruct (Z.lt_trichotomy (frame_length inp) 4) as [HL|[HL|HL]].
  { apply RM_invalid; auto using ReadMessage_invalid. }
  { apply RM_empty; auto using ReadMessage_empty. }
  destruct (Nat.lt_ge_cases (List.length (frame_body inp)) (Z.to_nat (frame_length inp - 4)))
    as [Hb|Hb].
  { apply RM_truncated; auto using ReadMessage_truncated. }
  { apply RM_read; auto using ReadMessage_read. }
Qed.

(** ** Frames *)

Lemma len_app_put32 n l : len (Slice (put32 n ++ l)) = 4 + Z.of_nat (List.length l).
Proof. rewrite len_Slice, length_app, put32_length. lia. Qed.

(** The frame [PackMessage] builds: the length field, the type field, the
    payload. *)
Lemma PackMessage_layout m p :
  PackMessage m p =
    Slice (put32 (Int.int32 (4 + len p)) ++ put32 (Int.int32 m) ++ elems p).
Proof.
  unfold PackMessage, prefixLength, writeInt32, new_Buffer, Buffer_Write.
  cbn [fst app].
  assert (E : elems p = [] -> put32 (Int.int32 m) = put32 (Int.int32 m) ++ elems p).
  { intros ->. now rewrite app_nil_r. }
  destruct (Z.ltb_spec 0 (len p)) as [H|H].
  2: rewrite (E (len_zero_elems p ltac:(pose proof (len_nonneg p); lia))) at 1 2.
  all: rewrite !(Buffer_Bytes_cons (put32 _ ++ _)) by apply put32_not_nil.
  all: rewrite len_app_put32; fold (len p); reflexivity.
Qed.

Lemma frame_length_app L rest : frame_length (put32 L ++ rest) = Int.int32 L.
Proof.
  unfold frame_length. now rewrite leading_int32_app, get32_put32 by apply put32_length.
Qed.

Lemma frame_length_PackMessage m p :
  frame_length (elems (PackMessage m p)) = Int.int32 (4 + len p).
Proof.
  rewrite PackMessage_layout. cbn [elems].
  now rewrite frame_length_app, IntFacts.int32_idem.
Qed.

Lemma PackMessage_length m p : (8 <= List.length (elems (PackMessage m p)))%nat.
Proof.
  rewrite PackMessage_layout. cbn [elems]. rewrite !length_app, !put32_length. lia.
Qed.

Lemma frame_payload_PackMessage m p : frame_payload (PackMessage m p) = elems p.
Proof.
  rewrite PackMessage_layout. unfold frame_payload. cbn [elems].
  rewrite app_assoc. apply skipn_exact. now rewrite length_app, !put32_length.
Qed.

(** [ReadMessage] on a well-formed frame followed by [rest]. *)
Lemma ReadMessage_frame L tag body rest a :
  Int.is_int32 tag -> L = 4 + Z.of_nat (List.length body) -> L <= Int.max_int32 ->
  ReadMessage (mkState (put32 L ++ put32 tag ++ body ++ rest) a) =
    ((tag, match body with [] => Nil | _ :: _ => Slice body end, None),
     mkState rest (a ++ match body with [] => [] | _ :: _ => [L - 4] end)).
Proof.
  intros Ht HL Hmax.
  set (inp := put32 L ++ put32 tag ++ body ++ rest).
  assert (Hlen : (8 <= List.length inp)%nat).
  { unfold inp. rewrite !length_app, !put32_length. lia. }
  assert (EL : frame_length inp = L).
  { unfold inp. rewrite frame_length_app.
    apply IntFacts.int32_id. unfold Int.is_int32, Int.max_int32 in *.
    change (2 ^ 31) with 2147483648 in *. lia. }
  assert (Et : frame_type inp = tag).
  { unfold frame_type, inp. rewrite skipn_exact by apply put32_length.
    rewrite leading_int32_app, get32_put32 by apply put32_length.
    now apply IntFacts.int32_id. }
  assert (Eb : frame_body inp = body ++ rest).
  { unfold frame_body, inp. now rewrite !skipn_exact by apply put32_length. }
  destruct body as [|b body].
  - rewrite ReadMessage_empty by (try exact Hlen; rewrite EL, HL; simpl; lia).
    now rewrite Et, Eb, app_nil_r.
  - assert (Hn : Z.to_nat (L - 4) = List.length (b :: body)) by lia.
    rewrite ReadMessage_read; rewrite ?EL, ?Et, ?Eb; try exact Hlen.
    + now rewrite Hn, firstn_exact, skipn_exact.
    + rewrite HL. simpl List.length. lia.
    + rewrite Hn, length_app. lia.
Qed.

(** [ReadMessage] gives back the type and the payload of a frame of
    [PackMessage] whose length field holds the length. *)
Lemma ReadMessage_PackMessage_eq m p :
  Int.is_int32 m -> 4 + len p <= Int.max_int32 ->
  ReadMessage (NewReader (PackMessage m p)) =
    ((m, match elems p with [] => Nil | _ :: _ => Slice (elems p) end, None),
     mkState [] (match elems p with [] => [] | _ :: _ => [len p] end)).
Proof.
  intros Hm Hp. pose proof (len_nonneg p) as H0.
  rewrite PackMessage_layout. unfold NewReader. cbn [elems].
  rewrite (IntFacts.int32_id m Hm).
  rewrite IntFacts.int32_id
    by (unfold Int.is_int32, Int.max_int32 in *; change (2 ^ 31) with 2147483648 in *; lia).
  pose proof (ReadMessage_frame (4 + len p) m (elems p) [] [] Hm eq_refl Hp) as E.
  rewrite app_nil_r in E. rewrite E. clear E. cbn [app].
  now replace (4 + len p - 4) with (len p) by lia.
Qed.


(** ** Strings and message payloads *)

Lemma string_of_bytes_length b : String.length (string_of_bytes b) = List.length b.
Proof.
  unfold string_of_bytes, string_of_list_byte.
  induction b as [|x b IH]; [reflexivity|].
  cbn [map string_of_list_ascii String.length List.length]. now rewrite IH.
Qed.

Lemma slen_zero_string n : 0 <= n -> slen (zero_string n) = n.
Proof.
  intros H. unfold slen, zero_string. rewrite string_of_bytes_length.
  apply (len_zeros n H).
Qed.

Lemma WriteString_ok buf s :
  slen s <= maxStringLen -> WriteString buf s = (buf ++ string_wire s, None).
Proof.
  intros H. unfold WriteString.
  replace (maxStringLen <? slen s) with false by (symmetry; apply Z.ltb_ge; lia).
  unfold writeInt32, Buffer_WriteString, string_wire.
  now rewrite put32_int32, <- app_assoc.
Qed.

Lemma WriteString_too_large buf s :
  maxStringLen < slen s -> WriteString buf s = (buf, Some (ErrStringTooLarge (slen s))).
Proof.
  intros H. unfold WriteString.
  now replace (maxStringLen <? slen s) with true by (symmetry; apply Z.ltb_lt; lia).
Qed.

Lemma string_wire_length s : List.length (string_wire s) = (4 + String.length s)%nat.
Proof.
  unfold string_wire. now rewrite length_app, put32_length, bytes_of_string_length.
Qed.

Lemma ReadString_string_wire s rest a :
  slen s <= maxStringLen ->
  ReadString (mkState (string_wire s ++ rest) a) =
    ((s, None), mkState rest (a ++ string_allocs s)).
Proof.
  intros H. unfold string_wire. rewrite <- app_assoc. now apply ReadString_encoded.
Qed.

Lemma readInt64_put64 n rest a :
  readInt64 (mkState (put64 n ++ rest) a) = ((Int.int64 n, None), mkState rest a).
Proof. rewrite readInt64_app by apply put64_length. now rewrite get64_put64. Qed.

Lemma readInt32_put32 n rest a :
  readInt32 (mkState (put32 n ++ rest) a) = ((Int.int32 n, None), mkState rest a).
Proof. rewrite readInt32_app by apply put32_length. now rewrite get32_put32. Qed.

(** A payload that starts with two strings and an [int64]. *)
Lemma read_string_string_int64 (B : Type) (h : error -> B) (k : string -> string -> Z -> M B)
    s1 s2 n rest a :
  slen s1 <= maxStringLen -> slen s2 <= maxStringLen ->
  (x <- ReadString orelse h ;; y <- ReadString orelse h ;; z <- readInt64 orelse h ;; k x y z)
    (mkState (string_wire s1 ++ string_wire s2 ++ put64 n ++ rest) a) =
  k s1 s2 (Int.int64 n) (mkState rest ((a ++ string_allocs s1) ++ string_allocs s2)).
Proof.
  intros H1 H2. unfold try.
  rewrite ReadString_string_wire by exact H1. cbn [fst snd].
  rewrite ReadString_string_wire by exact H2. cbn [fst snd].
  rewrite readInt64_put64. reflexivity.
Qed.

(** A payload that starts with a string, an [int64] and an [int32]. *)
Lemma read_string_int64_int32 (B : Type) (h : error -> B) (k : string -> Z -> Z -> M B)
    s n c rest a :
  slen s <= maxStringLen ->
  (x <- ReadString orelse h ;; y <- readInt64 orelse h ;; z <- readInt32 orelse h ;; k x y z)
    (mkState (string_wire s ++ put64 n ++ put32 c ++ rest) a) =
  k s (Int.int64 n) (Int.int32 c) (mkState rest (a ++ string_allocs s)).
Proof.
  intros H. unfold try.
  rewrite ReadString_string_wire by exact H. cbn [fst snd].
  rewrite readInt64_put64. cbn [fst snd].
  rewrite readInt32_put32. reflexivity.
Qed.

Lemma DecodeFileAdvert_wire fileID name size rest a :
  slen fileID <= maxStringLen -> slen name <= maxStringLen ->
  DecodeFileAdvert_from (mkState (string_wire fileID ++ string_wire name ++ put64 size ++ rest) a) =
    ((fileID, name, Int.int64 size, None),
     mkState rest ((a ++ string_allocs fileID) ++ string_allocs name)).
Proof.
  intros H1 H2. unfold DecodeFileAdvert_from.
  now rewrite read_string_string_int64.
Qed.

Lemma DecodeGetFile_wire transferID fileID offset rest a :
  slen transferID <= maxStringLen -> slen fileID <= maxStringLen ->
  DecodeGetFile_from
    (mkState (string_wire transferID ++ string_wire fileID ++ put64 offset ++ rest) a) =
    ((transferID, fileID, Int.int64 offset, None),
     mkState rest ((a ++ string_allocs transferID) ++ string_allocs fileID)).
Proof.
  intros H1 H2. unfold DecodeGetFile_from.
  now rewrite read_string_string_int64.
Qed.

Section DecodeFileChunk_cases.

Variables (transferID : string) (offset c : Z) (rest : list byte) (a : list Z).
Hypothesis Hid : slen transferID <= maxStringLen.

Let st := mkState (string_wire transferID ++ put64 offset ++ put32 c ++ rest) a.
Let chLen := Int.int32 c.
Let a' := a ++ string_allocs transferID.

Lemma DecodeFileChunk_invalid :
  chLen < 0 \/ maxChunkLen < chLen ->
  DecodeFileChunk_from st =
    ((EmptyString, 0, Nil, Some (ErrChunkLength chLen)), mkState rest a').
Proof.
  intros H. unfold DecodeFileChunk_from, st.
  rewrite read_string_int64_int32 by exact Hid. fold chLen a'.
  replace ((chLen <? 0) || (maxChunkLen <? chLen)) with true; [reflexivity|].
  symmetry. apply orb_true_iff. destruct H; [left|right]; now apply Z.ltb_lt.
Qed.

Lemma DecodeFileChunk_zero :
  chLen = 0 ->
  DecodeFileChunk_from st = ((transferID, Int.int64 offset, Nil, None), mkState rest a').
Proof.
  intros H. unfold DecodeFileChunk_from, st.
  rewrite read_string_int64_int32 by exact Hid. fold chLen a'.
  now rewrite H.
Qed.

Lemma DecodeFileChunk_read :
  0 < chLen <= maxChunkLen -> (Z.to_nat chLen <= List.length rest)%nat ->
  DecodeFileChunk_from st =
    ((transferID, Int.int64 offset, Slice (firstn (Z.to_nat chLen) rest), None),
     mkState (skipn (Z.to_nat chLen) rest) (a' ++ [chLen])).
Proof.
  intros H Hr. unfold DecodeFileChunk_from, st.
  rewrite read_string_int64_int32 by exact Hid. fold chLen a'.
  replace ((chLen <? 0) || (maxChunkLen <? chLen)) with false
    by (symmetry; apply orb_false_iff; split; apply Z.ltb_ge; lia).
  replace (chLen =? 0) with false by (symmetry; apply Z.eqb_neq; lia).
  unfold bind, try. rewrite make_eq, ReadFull_make by exact Hr. reflexivity.
Qed.

End DecodeFileChunk_cases.

(** Closes a side condition on small, explicit numbers. *)
Ltac small :=
  unfold slen, len, maxStringLen, maxChunkLen, Int.is_int32, Int.is_int64,
    Int.max_int32, MsgHello, MsgFileAdvert, MsgGetFile, MsgFileChunk;
  cbn; lia.

(** ** Encoders *)

Lemma string_wire_not_nil s rest : string_wire s ++ rest <> [].
Proof. unfold string_wire. rewrite <- app_assoc. apply put32_not_nil. Qed.

Lemma len_string_wire s rest :
  len (Slice (string_wire s ++ rest)) = 4 + slen s + Z.of_nat (List.length rest).
Proof.
  rewrite len_Slice, length_app, string_wire_length. unfold slen. lia.
Qed.

Lemma EncodeHello_frame username :
  slen username <= maxStringLen ->
  EncodeHello username = PackMessage MsgHello (Slice (string_wire username)).
Proof.
  intros H. unfold EncodeHello. rewrite WriteString_ok by exact H.
  unfold new_Buffer. cbn [fst app]. apply f_equal, Buffer_Bytes_cons.
  rewrite <- (app_nil_r (string_wire username)). apply string_wire_not_nil.
Qed.

Lemma EncodeFileAdvert_frame fileID name size :
  slen fileID <= maxStringLen -> slen name <= maxStringLen ->
  EncodeFileAdvert fileID name size =
    PackMessage MsgFileAdvert (Slice (string_wire fileID ++ string_wire name ++ put64 size)).
Proof.
  intros H1 H2. unfold EncodeFileAdvert.
  rewrite (WriteString_ok _ fileID) by exact H1.
  cbn [fst]. rewrite (WriteString_ok _ name) by exact H2.
  unfold new_Buffer, writeInt64. cbn [fst app]. apply f_equal.
  rewrite <- !app_assoc. apply Buffer_Bytes_cons, string_wire_not_nil.
Qed.

Lemma EncodeGetFile_frame transferID fileID offset :
  slen transferID <= maxStringLen -> slen fileID <= maxStringLen ->
  EncodeGetFile transferID fileID offset =
    PackMessage MsgGetFile (Slice (string_wire transferID ++ string_wire fileID ++ put64 offset)).
Proof.
  intros H1 H2. unfold EncodeGetFile.
  rewrite (WriteString_ok _ transferID) by exact H1.
  cbn [fst]. rewrite (WriteString_ok _ fileID) by exact H2.
  unfold new_Buffer, writeInt64. cbn [fst app]. apply f_equal.
  rewrite <- !app_assoc. apply Buffer_Bytes_cons, string_wire_not_nil.
Qed.

Lemma FileChunk_payload_wire transferID offset chunk :
  slen transferID <= maxStringLen ->
  FileChunk_payload transferID offset chunk =
    Slice (string_wire transferID ++ put64 offset ++ put32 (len chunk) ++ elems chunk).
Proof.
  intros H. unfold FileChunk_payload. rewrite WriteString_ok by exact H.
  unfold new_Buffer, writeInt64, writeInt32, Buffer_Write. cbn [fst app].
  rewrite put32_int32.
  assert (E : elems chunk = [] -> put32 (len chunk) = put32 (len chunk) ++ elems chunk).
  { intros ->. now rewrite app_nil_r. }
  destruct (Z.ltb_spec 0 (len chunk)) as [Hc|Hc].
  2: rewrite (E (len_zero_elems chunk ltac:(pose proof (len_nonneg chunk); lia))) at 1.
  all: rewrite <- !app_assoc; apply Buffer_Bytes_cons, string_wire_not_nil.
Qed.

(** What [ReadMessage] makes of a frame with a payload that is not empty. *)
Lemma ReadMessage_PackMessage_Slice m l :
  Int.is_int32 m -> l <> [] -> 4 + len (Slice l) <= Int.max_int32 ->
  fst (ReadMessage (NewReader (PackMessage m (Slice l)))) = (m, Slice l, None).
Proof.
  intros Hm Hl Hmax. rewrite ReadMessage_PackMessage_eq by assumption.
  cbn [fst elems]. destruct l; [congruence | reflexivity].
Qed.


Lemma int32_high z : 2 ^ 31 <= z < 2 ^ 32 -> Int.int32 z = z - 2 ^ 32.
Proof.
  unfold Int.int32, Int.wrap. change (2 ^ (32 - 1)) with 2147483648.
  change (2 ^ 31) with 2147483648. change (2 ^ 32) with 4294967296.
  intros H. symmetry.
  rewrite <- (Z.mod_unique (z + 2147483648) 4294967296 1 (z - 2147483648)); lia.
Qed.

(** The payload of a file chunk frame, decoded: the chunk comes back as
    the slice of its bytes, or as nil when it has none. *)
Lemma DecodeFileChunk_payload transferID offset chunk :
  slen transferID <= maxStringLen -> Int.is_int64 offset -> len chunk <= maxChunkLen ->
  DecodeFileChunk (FileChunk_payload transferID offset chunk) =
    (transferID, offset,
     match elems chunk with [] => Nil | _ :: _ => Slice (elems chunk) end, None).
Proof.
  intros Hid Ho Hc. pose proof (len_nonneg chunk) as H0.
  rewrite FileChunk_payload_wire by exact Hid.
  unfold DecodeFileChunk, NewReader. cbn [elems].
  assert (Hl : Int.int32 (len chunk) = len chunk).
  { apply IntFacts.int32_id. unfold Int.is_int32, maxChunkLen in *.
    change (2 ^ 31) with 2147483648. lia. }
  destruct (elems chunk) as [|b l] eqn:E.
  - rewrite DecodeFileChunk_zero; [|exact Hid|].
    + cbn [fst]. now rewrite IntFacts.int64_id.
    + rewrite Hl. unfold len. now rewrite E.
  - assert (Hn : Z.to_nat (len chunk) = List.length (b :: l)).
    { unfold len. rewrite E. apply Nat2Z.id. }
    rewrite DecodeFileChunk_read; rewrite ?Hl; try exact Hid.
    + cbn [fst]. now rewrite Hn, firstn_all, IntFacts.int64_id.
    + unfold len in *. rewrite E in *. simpl List.length in *. lia.
    + rewrite Hn. lia.
Qed.


Lemma string_wire_not_nil0 s : string_wire s <> [].
Proof. rewrite <- (app_nil_r (string_wire s)). apply string_wire_not_nil. Qed.

(** Payloads within the caps of the codec fit the length field of a frame. *)
Lemma frame_fits (l : list byte) :
  Z.of_nat (List.length l) <= 2 * maxStringLen + maxChunkLen + 100 ->
  4 + len (Slice l) <= Int.max_int32.
Proof.
  rewrite len_Slice. unfold maxStringLen, maxChunkLen, Int.max_int32.
  change (2 ^ 31) with 2147483648. lia.
Qed.

(** * The claims *)

(** ** ReadString (C6) *)

(** C6. [ReadString] first reads an [int32] length [l], and fails with a
    truncated read when the stream has no four bytes for it. With the
    length read, it fails with an invalid length when [l] is negative or
    above [maxStringLen], having consumed the four length bytes only and
    allocated nothing; for [l = 0] it returns the empty string, the stream
    standing right behind the four length bytes; otherwise it reads exactly
    [l] bytes and returns them as the string, or fails with a truncated
    read when fewer than [l] bytes are there. *)
Theorem ReadString_contract (inp : list byte) (a : list Z) :
  let l := leading_int32 inp in
  let rest := skipn 4 inp in
  let r := ReadString (mkState inp a) in
  ((List.length inp < 4)%nat ->
     fst r = (EmptyString, Some (eof_error inp)) /\ fails_with (fst r) TruncatedRead)
  /\ ((4 <= List.length inp)%nat ->
      (l < 0 \/ maxStringLen < l ->
         r = ((EmptyString, Some (ErrStringLength l)), mkState rest a)
         /\ fails_with (fst r) InvalidLength)
      /\ (l = 0 -> r = ((EmptyString, None), mkState rest a))
      /\ (0 < l <= maxStringLen -> (Z.to_nat l <= List.length rest)%nat ->
            r = ((string_of_bytes (firstn (Z.to_nat l) rest), None),
                 mkState (skipn (Z.to_nat l) rest) (a ++ [l])))
      /\ (0 < l <= maxStringLen -> (List.length rest < Z.to_nat l)%nat ->
            fst r = (EmptyString, Some (eof_error rest))
            /\ fails_with (fst r) TruncatedRead)).
Proof.
  cbv zeta. split.
  - intros H. rewrite ReadString_no_length by exact H. split; [reflexivity|].
    eexists. split; [reflexivity | apply kind_eof_error].
  - intros H. repeat split.
    + now apply ReadString_invalid.
    + rewrite ReadString_invalid by assumption. now eexists.
    + now apply ReadString_zero.
    + now apply ReadString_read.
    + now rewrite ReadString_truncated.
    + rewrite ReadString_truncated by assumption.
      eexists. split; [reflexivity | apply kind_eof_error].
Qed.

(** The contract on three streams. On [00 00 00 00 61] the length is 0
    and the byte behind the length field stays unread; on [ff ff ff ff 61]
    the length is -1; on [02 00 00 00 68 69 21] the two bytes [hi] are
    read and the third stays. *)
Lemma ReadString_contract_witness :
  ReadString (mkState [Byte.x00; Byte.x00; Byte.x00; Byte.x00; Byte.x61] []) =
    ((EmptyString, None), mkState [Byte.x61] [])
  /\ ReadString (mkState [Byte.xff; Byte.xff; Byte.xff; Byte.xff; Byte.x61] []) =
       ((EmptyString, Some (ErrStringLength (-1))), mkState [Byte.x61] [])
  /\ ReadString (mkState [Byte.x02; Byte.x00; Byte.x00; Byte.x00;
                          Byte.x68; Byte.x69; Byte.x21] []) =
       (("hi"%string, None), mkState [Byte.x21] [2]).
Proof.
  repeat apply conj.
  - refine (proj1 (proj2 (proj2
      (ReadString_contract [Byte.x00; Byte.x00; Byte.x00; Byte.x00; Byte.x61] []) _)) _).
    + simpl. lia.
    + reflexivity.
  - refine (proj1 (proj1 (proj2
      (ReadString_contract [Byte.xff; Byte.xff; Byte.xff; Byte.xff; Byte.x61] []) _) _)).
    + simpl. lia.
    + left. vm_compute. reflexivity.
  - refine (proj1 (proj2 (proj2 (proj2
      (ReadString_contract [Byte.x02; Byte.x00; Byte.x00; Byte.x00;
                            Byte.x68; Byte.x69; Byte.x21] []) _))) _ _).
    + simpl. lia.
    + vm_compute. split; [reflexivity | discriminate].
    + simpl. lia.
Defined.

(** ** ReadMessage (C4, C5) *)

(** C4, as the code has it. [ReadMessage] fails with a truncated read when
    the stream ends before the four length bytes, before the four bytes of
    the type tag, or before the [L - 4] payload bytes; it fails with an
    invalid length when the declared length [L] is below 4 and the eight
    header bytes are there; and whenever it fails, the type it returns is 0
    and the payload is nil. *)
Theorem ReadMessage_error_contract (inp : list byte) (a : list Z) :
  let L := frame_length inp in
  let r := fst (ReadMessage (mkState inp a)) in
  ((List.length inp < 4)%nat ->
     r = (0, Nil, Some (eof_error inp)) /\ fails_with r TruncatedRead)
  /\ ((4 <= List.length inp < 8)%nat ->
       r = (0, Nil, Some (eof_error (skipn 4 inp))) /\ fails_with r TruncatedRead)
  /\ ((8 <= List.length inp)%nat -> 4 < L ->
       (List.length (frame_body inp) < Z.to_nat (L - 4))%nat ->
       r = (0, Nil, Some (eof_error (frame_body inp))) /\ fails_with r TruncatedRead)
  /\ ((8 <= List.length inp)%nat -> L < 4 ->
       r = (0, Nil, Some (ErrMessageLength L)) /\ fails_with r InvalidLength)
  /\ (forall e, snd r = Some e ->
       fst r = (0, Nil) /\ (kind e = TruncatedRead \/ kind e = InvalidLength)).
Proof.
  cbv zeta. repeat apply conj.
  - intros H. rewrite ReadMessage_no_length by exact H. split; [reflexivity|].
    eexists. split; [reflexivity | apply kind_eof_error].
  - intros H. rewrite ReadMessage_no_type by exact H. split; [reflexivity|].
    eexists. split; [reflexivity | apply kind_eof_error].
  - intros H HL Hb. rewrite ReadMessage_truncated by assumption.
    split; [reflexivity|]. eexists. split; [reflexivity | apply kind_eof_error].
  - intros H HL. rewrite ReadMessage_invalid by assumption.
    split; [reflexivity|]. now eexists.
  - intros e. destruct (ReadMessage_cases inp a) as [? E|? E|? ? E|? ? E|? ? ? E|? ? ? E];
      rewrite E; cbn [fst snd]; intros He; inversion He; subst;
      (split; [reflexivity|]); auto using kind_eof_error.
Qed.

(** The contract on the three-byte stream [01 00 00] of the package's
    test of a malformed message: a truncated read, no type, no payload. *)
Lemma ReadMessage_error_contract_witness :
  fst (ReadMessage (mkState [Byte.x01; Byte.x00; Byte.x00] [])) =
    (0, Nil, Some ErrUnexpectedEOF)
  /\ fst (ReadMessage (mkState [Byte.x03; Byte.x00; Byte.x00; Byte.x00;
                                Byte.x01; Byte.x00; Byte.x00; Byte.x00] [])) =
       (0, Nil, Some (ErrMessageLength 3)).
Proof.
  split.
  - refine (proj1 (proj1 (ReadMessage_error_contract [Byte.x01; Byte.x00; Byte.x00] []) _)).
    simpl. lia.
  - refine (proj1 (proj1 (proj2 (proj2 (proj2 (ReadMessage_error_contract
      [Byte.x03; Byte.x00; Byte.x00; Byte.x00; Byte.x01; Byte.x00; Byte.x00; Byte.x00]
      [])))) _ _)).
    + simpl. lia.
    + vm_compute. reflexivity.
Defined.

(** C4 as stated fails: on the four-byte stream [03 00 00 00] the declared
    length is 3, below 4, and [ReadMessage] fails with [io.EOF] on the
    read of the type tag, a truncated read and not an invalid length. *)
Lemma ReadMessage_short_length_truncated :
  frame_length [Byte.x03; Byte.x00; Byte.x00; Byte.x00] = 3
  /\ fst (ReadMessage (mkState [Byte.x03; Byte.x00; Byte.x00; Byte.x00] [])) =
       (0, Nil, Some EOF)
  /\ ~ fails_with (fst (ReadMessage (mkState [Byte.x03; Byte.x00; Byte.x00; Byte.x00] [])))
        InvalidLength.
Proof.
  repeat split.
  intros [e [He Hk]]. vm_compute in He. inversion He. subst e. discriminate Hk.
Qed.

(** C5, as the code has it. When [ReadMessage] succeeds, the stream held
    the eight header bytes and a declared length [L] of at least 4; the
    type returned is the number in the type field, whatever it is, a key
    of [MsgNames] or not; for [L = 4] the payload returned is the nil
    slice; for [L > 4] it is a slice of the [L - 4] bytes behind the
    header. *)
Theorem ReadMessage_success (inp : list byte) (a : list Z)
    (m : MsgType) (p : ByteSlice) (st' : state) :
  ReadMessage (mkState inp a) = ((m, p, None), st') ->
  let L := frame_length inp in
  (8 <= List.length inp)%nat /\ 4 <= L
  /\ m = frame_type inp
  /\ (L = 4 -> p = Nil /\ input st' = frame_body inp)
  /\ (4 < L ->
       p = Slice (firstn (Z.to_nat (L - 4)) (frame_body inp))
       /\ len p = L - 4
       /\ input st' = skipn (Z.to_nat (L - 4)) (frame_body inp)).
Proof.
  cbv zeta. intros E.
  destruct (ReadMessage_cases inp a) as [? E'|? E'|? ? E'|? HL E'|? HL Hb E'|? ? ? E'];
    rewrite E' in E; inversion E; subst; clear E.
  - repeat split; try lia; cbn [input]; lia.
  - repeat split; try lia; cbn [input]; try reflexivity.
    rewrite len_Slice, firstn_length_le by exact Hb. lia.
Qed.

(** Success with the type tag 7, which is no key of [MsgNames], and a
    one-byte payload. *)
Lemma ReadMessage_success_witness :
  known 7 = false
  /\ 7 = frame_type [Byte.x05; Byte.x00; Byte.x00; Byte.x00;
                     Byte.x07; Byte.x00; Byte.x00; Byte.x00; Byte.x2a].
Proof.
  split; [reflexivity|].
  refine (proj1 (proj2 (proj2 (ReadMessage_success
    [Byte.x05; Byte.x00; Byte.x00; Byte.x00; Byte.x07; Byte.x00; Byte.x00; Byte.x00; Byte.x2a]
    [] 7 (Slice [Byte.x2a]) (mkState [] [1]) _)))).
  reflexivity.
Defined.

(** C5 as stated fails: the frame of [EncodePing] declares the length 4,
    [ReadMessage] succeeds on it, and the payload it returns is the nil
    slice, not a slice with no element. *)
Lemma ReadMessage_empty_payload_nil :
  frame_length (elems EncodePing) = 4
  /\ fst (ReadMessage (NewReader EncodePing)) = (MsgPing, Nil, None)
  /\ snd (fst (fst (ReadMessage (NewReader EncodePing)))) <> Slice [].
Proof.
  repeat split. vm_compute. discriminate.
Qed.

(** ** Framing (C1, C9) *)

(** C1, as the code has it. For every message type [m] and every payload
    [p] with [4 + len(p)] within the [int32] length field, [ReadMessage]
    on the frame of [PackMessage(m, p)] returns [m] and a payload with the
    bytes of [p], no error: the slice of those bytes when [p] is not
    empty, the nil slice when it is. *)
Theorem ReadMessage_PackMessage (m : MsgType) (p : ByteSlice) :
  Int.is_int32 m -> 4 + len p <= Int.max_int32 ->
  exists p',
    fst (ReadMessage (NewReader (PackMessage m p))) = (m, p', None)
    /\ bytes_Equal p p' = true
    /\ (0 < len p -> p' = Slice (elems p))
    /\ (len p = 0 -> p' = Nil).
Proof.
  intros Hm Hp. rewrite ReadMessage_PackMessage_eq by assumption.
  cbn [fst]. eexists. split; [reflexivity|]. rewrite bytes_Equal_true. unfold len.
  destruct (elems p) as [|b l]; repeat split; try reflexivity;
    simpl List.length; intros; lia.
Qed.

(** The round trip of the package's test: [MsgHello] with the payload
    [hello world]. *)
Lemma ReadMessage_PackMessage_witness :
  exists p',
    fst (ReadMessage (NewReader (PackMessage MsgHello
           (Slice (bytes_of_string "hello world"))))) = (MsgHello, p', None)
    /\ bytes_Equal (Slice (bytes_of_string "hello world")) p' = true
    /\ (0 < len (Slice (bytes_of_string "hello world")) ->
        p' = Slice (elems (Slice (bytes_of_string "hello world"))))
    /\ (len (Slice (bytes_of_string "hello world")) = 0 -> p' = Nil).
Proof.
  apply (ReadMessage_PackMessage MsgHello (Slice (bytes_of_string "hello world"))).
  - unfold Int.is_int32, MsgHello. simpl. lia.
  - unfold Int.max_int32. simpl. lia.
Defined.

(** C1 as stated fails: with a payload of 2147483644 bytes the frame is
    2^31 bytes long behind its length field, [int32(len(data))] is -2^31,
    and [ReadMessage] rejects the frame with an invalid message length. *)
Lemma ReadMessage_PackMessage_overflow :
  4 + len (zeros 2147483644) = 2147483648
  /\ fst (ReadMessage (NewReader (PackMessage MsgHello (zeros 2147483644)))) =
       (0, Nil, Some (ErrMessageLength (-2147483648))).
Proof.
  assert (HL : 4 + len (zeros 2147483644) = 2147483648).
  { rewrite len_zeros by lia. reflexivity. }
  split; [exact HL|].
  unfold NewReader. rewrite ReadMessage_invalid.
  - rewrite frame_length_PackMessage, HL. reflexivity.
  - apply PackMessage_length.
  - rewrite frame_length_PackMessage, HL. reflexivity.
Qed.

(** C9, as the code has it. For every message type and payload,
    [PackMessage] returns a non-nil slice of exactly: four bytes of length
    field, the type as a four-byte little-endian [int32], the payload
    bytes unchanged. The length field holds [int32(4 + len(payload))]: its
    four bytes are the low 32 bits of [4 + len(payload)], which is that
    number itself below 2^32, and reads back as that [int32] up to
    2^31 - 1. There is no error result. *)
Theorem PackMessage_wire_layout (m : MsgType) (p : ByteSlice) :
  let field := put32 (Int.int32 (4 + len p)) in
  PackMessage m p = Slice (field ++ put32 m ++ elems p)
  /\ List.length field = 4%nat
  /\ List.length (put32 m) = 4%nat
  /\ le_combine field = (4 + len p) mod 2 ^ 32
  /\ (4 + len p < 2 ^ 32 -> le_combine field = 4 + len p)
  /\ (4 + len p <= Int.max_int32 -> get32 field = 4 + len p)
  /\ (Int.is_int32 m -> get32 (put32 m) = m).
Proof.
  cbv zeta. pose proof (len_nonneg p) as H0. repeat apply conj.
  - rewrite PackMessage_layout. now rewrite (put32_int32 m).
  - apply put32_length.
  - apply put32_length.
  - now rewrite put32_int32, le_combine_put32.
  - intros H. rewrite put32_int32, le_combine_put32. apply Z.mod_small. lia.
  - intros H. rewrite get32_put32, IntFacts.int32_idem. apply IntFacts.int32_id.
    unfold Int.is_int32, Int.max_int32 in *. change (2 ^ 31) with 2147483648 in *. lia.
  - intros H. rewrite get32_put32. now apply IntFacts.int32_id.
Qed.

(** The frame of [PackMessage(MsgHello, "ab")], byte by byte. *)
Lemma PackMessage_wire_layout_witness :
  PackMessage MsgHello (Slice [Byte.x61; Byte.x62]) =
    Slice [Byte.x06; Byte.x00; Byte.x00; Byte.x00;
           Byte.x01; Byte.x00; Byte.x00; Byte.x00; Byte.x61; Byte.x62]
  /\ get32 [Byte.x06; Byte.x00; Byte.x00; Byte.x00] = 4 + 2.
Proof.
  split.
  - exact (proj1 (PackMessage_wire_layout MsgHello (Slice [Byte.x61; Byte.x62]))).
  - refine (proj1 (proj2 (proj2 (proj2 (proj2 (proj2
      (PackMessage_wire_layout MsgHello (Slice [Byte.x61; Byte.x62]))))))) _).
    unfold Int.max_int32. simpl. lia.
Defined.

(** C9 as stated fails: with a payload of 4294967292 bytes the sum
    [4 + len(payload)] is 2^32, and the four bytes of the length field are
    all zero: no reading of four bytes is 2^32. *)
Lemma PackMessage_length_field_wraps :
  4 + len (zeros 4294967292) = 4294967296
  /\ firstn 4 (elems (PackMessage MsgHello (zeros 4294967292))) =
       [Byte.x00; Byte.x00; Byte.x00; Byte.x00]
  /\ le_combine (firstn 4 (elems (PackMessage MsgHello (zeros 4294967292)))) <>
       4 + len (zeros 4294967292).
Proof.
  assert (HL : 4 + len (zeros 4294967292) = 4294967296).
  { rewrite len_zeros by lia. reflexivity. }
  assert (HF : firstn 4 (elems (PackMessage MsgHello (zeros 4294967292))) =
               [Byte.x00; Byte.x00; Byte.x00; Byte.x00]).
  { rewrite PackMessage_layout. cbn [elems].
    rewrite firstn_exact by apply put32_length. rewrite HL. reflexivity. }
  split; [exact HL | split; [exact HF |]].
  rewrite HF, HL. discriminate.
Qed.

(** ** Strings (C2) *)

(** C2. For every string [s] of at most 50,000,000 bytes, [WriteString]
    succeeds and appends the wire form of [s] to the buffer, and
    [ReadString] on the bytes written, whatever follows them, returns [s]
    with no error and stops behind them. For every longer string,
    [WriteString] fails with a string-too-large error and leaves the
    buffer as it was. *)
Theorem WriteString_ReadString (buf : Buffer) (s : string) :
  (slen s <= maxStringLen ->
     WriteString buf s = (buf ++ string_wire s, None)
     /\ forall rest a,
          fst (ReadString (mkState (string_wire s ++ rest) a)) = (s, None)
          /\ input (snd (ReadString (mkState (string_wire s ++ rest) a))) = rest)
  /\ (maxStringLen < slen s ->
       WriteString buf s = (buf, Some (ErrStringTooLarge (slen s)))
       /\ fails_with (WriteString buf s) StringTooLarge).
Proof.
  split.
  - intros H. split; [now apply WriteString_ok|].
    intros rest a. now rewrite ReadString_string_wire.
  - intros H. rewrite WriteString_too_large by exact H.
    split; [reflexivity|]. now eexists.
Qed.

(** The string of the package's test, [test123], written to a new buffer
    and read back; and a string of 50,000,001 bytes, refused. *)
Lemma WriteString_ReadString_witness :
  (WriteString new_Buffer "test123" = (new_Buffer ++ string_wire "test123", None)
   /\ forall rest a,
        fst (ReadString (mkState (string_wire "test123" ++ rest) a)) = ("test123"%string, None)
        /\ input (snd (ReadString (mkState (string_wire "test123" ++ rest) a))) = rest)
  /\ fails_with (WriteString new_Buffer (zero_string 50000001)) StringTooLarge.
Proof.
  split.
  - apply (proj1 (WriteString_ReadString new_Buffer "test123")).
    small.
  - apply (proj2 (WriteString_ReadString new_Buffer (zero_string 50000001))).
    rewrite slen_zero_string by lia. unfold maxStringLen. lia.
Defined.

(** ** File chunks (C3, C8, C10) *)

(** C3. On every payload that holds a transfer ID, an offset and then a
    chunk length that is negative or above 104,857,600, [DecodeFileChunk]
    fails with an invalid length. The reader stands right behind the
    length field, so nothing of the declared length was read, and the one
    buffer allocated, if any, is that of the transfer ID. *)
Theorem DecodeFileChunk_length_cap (transferID : string) (offset chLen : Z)
    (rest : list byte) :
  slen transferID <= maxStringLen -> Int.is_int32 chLen ->
  chLen < 0 \/ maxChunkLen < chLen ->
  let payload := Slice (string_wire transferID ++ put64 offset ++ put32 chLen ++ rest) in
  DecodeFileChunk_from (NewReader payload) =
    ((EmptyString, 0, Nil, Some (ErrChunkLength chLen)),
     mkState rest (string_allocs transferID))
  /\ fails_with (DecodeFileChunk payload) InvalidLength
  /\ ~ In chLen (string_allocs transferID).
Proof.
  intros Hid Hc Hbad. cbv zeta.
  assert (E : DecodeFileChunk_from
                (NewReader (Slice (string_wire transferID ++ put64 offset ++ put32 chLen ++ rest))) =
              ((EmptyString, 0, Nil, Some (ErrChunkLength chLen)),
               mkState rest (string_allocs transferID))).
  { unfold NewReader. cbn [elems].
    rewrite DecodeFileChunk_invalid; rewrite ?(IntFacts.int32_id chLen Hc); auto. }
  split; [exact E|]. split.
  - unfold DecodeFileChunk. rewrite E. now eexists.
  - unfold string_allocs. pose proof (slen_nonneg transferID).
    destruct (slen transferID =? 0); cbn [In]; [tauto|].
    unfold maxStringLen, maxChunkLen in *. lia.
Qed.

(** A payload with the transfer ID [tx], the offset 7 and the chunk length
    104,857,601, one above the cap, followed by one byte. *)
Lemma DecodeFileChunk_length_cap_witness :
  DecodeFileChunk_from
    (NewReader (Slice (string_wire "tx" ++ put64 7 ++ put32 104857601 ++ [Byte.xff]))) =
    ((EmptyString, 0, Nil, Some (ErrChunkLength 104857601)), mkState [Byte.xff] [2]).
Proof.
  refine (proj1 (DecodeFileChunk_length_cap "tx" 7 104857601 [Byte.xff] _ _ _)).
  - small.
  - small.
  - right. unfold maxChunkLen. lia.
Defined.

(** C8. On every payload that holds a transfer ID, an offset and then the
    chunk length 0, [DecodeFileChunk] succeeds: it returns the transfer
    ID, the offset, the nil slice as the chunk, and no error. *)
Theorem DecodeFileChunk_zero_length (transferID : string) (offset : Z) (rest : list byte) :
  slen transferID <= maxStringLen -> Int.is_int64 offset ->
  DecodeFileChunk (Slice (string_wire transferID ++ put64 offset ++ put32 0 ++ rest)) =
    (transferID, offset, Nil, None).
Proof.
  intros Hid Ho. unfold DecodeFileChunk, NewReader. cbn [elems].
  rewrite DecodeFileChunk_zero by (try exact Hid; reflexivity).
  cbn [fst]. now rewrite IntFacts.int64_id.
Qed.

(** The payload of [EncodeFileChunk("tx", 7, nil)]. *)
Lemma DecodeFileChunk_zero_length_witness :
  DecodeFileChunk (Slice (string_wire "tx" ++ put64 7 ++ put32 0 ++ [])) =
    ("tx"%string, 7, Nil, None).
Proof.
  apply (DecodeFileChunk_zero_length "tx" 7 []).
  - small.
  - small.
Defined.

(** The bytes behind the eight header bytes of a file chunk frame, taken
    as they are: for every chunk of more than 104,857,600 and fewer than
    2^32 bytes they hold the transfer ID, the offset, the length field and
    every byte of the chunk, and [DecodeFileChunk] on them fails with an
    invalid length, the length field reading as [int32(len(chunk))]. *)
Lemma FileChunk_oversized_behind_header (transferID : string) (offset : Z) (chunk : ByteSlice) :
  slen transferID <= maxStringLen -> maxChunkLen < len chunk < 2 ^ 32 ->
  frame_payload (EncodeFileChunk transferID offset chunk) =
    string_wire transferID ++ put64 offset ++ put32 (len chunk) ++ elems chunk
  /\ DecodeFileChunk (Slice (frame_payload (EncodeFileChunk transferID offset chunk))) =
       (EmptyString, 0, Nil, Some (ErrChunkLength (Int.int32 (len chunk))))
  /\ fails_with
       (DecodeFileChunk (Slice (frame_payload (EncodeFileChunk transferID offset chunk))))
       InvalidLength.
Proof.
  intros Hid Hc.
  assert (E : frame_payload (EncodeFileChunk transferID offset chunk) =
              string_wire transferID ++ put64 offset ++ put32 (len chunk) ++ elems chunk).
  { unfold EncodeFileChunk.
    now rewrite frame_payload_PackMessage, FileChunk_payload_wire by exact Hid. }
  assert (D : DecodeFileChunk (Slice (frame_payload (EncodeFileChunk transferID offset chunk))) =
              (EmptyString, 0, Nil, Some (ErrChunkLength (Int.int32 (len chunk))))).
  { rewrite E. unfold DecodeFileChunk, NewReader. cbn [elems].
    rewrite DecodeFileChunk_invalid; [reflexivity | exact Hid |].
    unfold maxChunkLen in *. change (2 ^ 32) with 4294967296 in Hc.
    destruct (Z.lt_ge_cases (len chunk) 2147483648) as [Hs|Hs].
    - right. rewrite IntFacts.int32_id; [lia|].
      unfold Int.is_int32. change (2 ^ 31) with 2147483648. lia.
    - left. rewrite int32_high; change (2 ^ 31) with 2147483648;
        change (2 ^ 32) with 4294967296; lia. }
  split; [exact E|]. split; [exact D|]. rewrite D. now eexists.
Qed.

(** [ReadMessage] on the frame of a chunk of 2^32 bytes, with an empty
    transfer ID: the length field of the frame holds 20, and the payload
    returned is the sixteen bytes behind the header. *)
Lemma ReadMessage_wrapped_chunk_frame offset chunk :
  len chunk = 4294967296 ->
  fst (ReadMessage (NewReader (EncodeFileChunk "" offset chunk))) =
    (MsgFileChunk, Slice (string_wire "" ++ put64 offset ++ put32 0), None).
Proof.
  intros Hc. unfold EncodeFileChunk. rewrite FileChunk_payload_wire by small.
  set (head := string_wire "" ++ put64 offset ++ put32 (len chunk)).
  assert (Hh : List.length head = 16%nat).
  { unfold head. now rewrite !length_app, string_wire_length, put64_length, put32_length. }
  assert (Ep : string_wire "" ++ put64 offset ++ put32 (len chunk) ++ elems chunk
               = head ++ elems chunk).
  { unfold head. now rewrite <- !app_assoc. }
  rewrite Ep. unfold NewReader.
  assert (Hlen : len (Slice (head ++ elems chunk)) = 16 + 4294967296).
  { rewrite len_Slice, length_app, Hh. unfold len in Hc. lia. }
  assert (HL : frame_length (elems (PackMessage MsgFileChunk (Slice (head ++ elems chunk)))) = 20).
  { rewrite frame_length_PackMessage, Hlen. reflexivity. }
  assert (Hb : frame_body (elems (PackMessage MsgFileChunk (Slice (head ++ elems chunk))))
               = head ++ elems chunk).
  { rewrite PackMessage_layout. cbn [elems]. unfold frame_body.
    now rewrite !skipn_exact by apply put32_length. }
  assert (Ht : frame_type (elems (PackMessage MsgFileChunk (Slice (head ++ elems chunk))))
               = MsgFileChunk).
  { rewrite PackMessage_layout. cbn [elems]. unfold frame_type.
    rewrite skipn_exact by apply put32_length.
    rewrite leading_int32_app, get32_put32 by apply put32_length. reflexivity. }
  rewrite ReadMessage_read.
  - cbn [fst]. rewrite HL, Hb, Ht. change (Z.to_nat (20 - 4)) with 16%nat.
    rewrite firstn_exact by exact Hh. unfold head. rewrite Hc. reflexivity.
  - apply PackMessage_length.
  - rewrite HL. lia.
  - rewrite HL, Hb, length_app, Hh. change (Z.to_nat (20 - 4)) with 16%nat. lia.
Qed.

(** C10, as the code has it. [EncodeFileChunk] checks no size: for every
    chunk of more than 104,857,600 bytes whose frame still fits the
    [int32] length field of the frame, with a transfer ID within the
    string cap, it returns a complete frame, on which [ReadMessage]
    returns the type and the payload, the payload holding the transfer
    ID, the offset, the length field and every byte of the chunk; and
    [DecodeFileChunk] on that payload fails with an invalid length, the
    declared chunk length being above the cap. *)
Theorem FileChunk_oversized (transferID : string) (offset : Z) (chunk : ByteSlice) :
  slen transferID <= maxStringLen -> maxChunkLen < len chunk ->
  4 + ((4 + slen transferID) + 8 + 4 + len chunk) <= Int.max_int32 ->
  exists payload,
    fst (ReadMessage (NewReader (EncodeFileChunk transferID offset chunk))) =
      (MsgFileChunk, payload, None)
    /\ elems payload =
         string_wire transferID ++ put64 offset ++ put32 (len chunk) ++ elems chunk
    /\ DecodeFileChunk payload = (EmptyString, 0, Nil, Some (ErrChunkLength (len chunk)))
    /\ fails_with (DecodeFileChunk payload) InvalidLength.
Proof.
  intros Hid Hc Hfit.
  exists (Slice (string_wire transferID ++ put64 offset ++ put32 (len chunk) ++ elems chunk)).
  assert (D : DecodeFileChunk
                (Slice (string_wire transferID ++ put64 offset ++ put32 (len chunk)
                        ++ elems chunk)) =
              (EmptyString, 0, Nil, Some (ErrChunkLength (len chunk)))).
  { assert (Hl : Int.int32 (len chunk) = len chunk).
    { apply IntFacts.int32_id. pose proof (slen_nonneg transferID).
      unfold Int.is_int32, Int.max_int32, maxChunkLen in *.
      change (2 ^ 31) with 2147483648 in *. lia. }
    unfold DecodeFileChunk, NewReader. cbn [elems].
    rewrite DecodeFileChunk_invalid; rewrite ?Hl; [reflexivity | exact Hid | now right]. }
  split; [|split; [reflexivity | split; [exact D | rewrite D; now eexists]]].
  unfold EncodeFileChunk. rewrite FileChunk_payload_wire by exact Hid.
  apply ReadMessage_PackMessage_Slice; [small | apply string_wire_not_nil |].
  rewrite len_Slice, !length_app, string_wire_length, put64_length, put32_length.
  unfold slen, len in *. lia.
Qed.

(** A chunk of 104,857,601 bytes, one above the cap. *)
Lemma FileChunk_oversized_witness :
  exists payload,
    fst (ReadMessage (NewReader (EncodeFileChunk "tx" 7 (zeros 104857601)))) =
      (MsgFileChunk, payload, None)
    /\ elems payload =
         string_wire "tx" ++ put64 7 ++ put32 (len (zeros 104857601))
         ++ elems (zeros 104857601)
    /\ DecodeFileChunk payload =
         (EmptyString, 0, Nil, Some (ErrChunkLength (len (zeros 104857601))))
    /\ fails_with (DecodeFileChunk payload) InvalidLength.
Proof.
  apply (FileChunk_oversized "tx" 7 (zeros 104857601)).
  - small.
  - rewrite len_zeros by lia. unfold maxChunkLen. lia.
  - rewrite len_zeros by lia. unfold Int.max_int32. change (2 ^ 31) with 2147483648.
    change (slen "tx") with 2. lia.
Defined.

(** C10 as stated fails: for a chunk of 2^32 bytes the length field
    [int32(len(chunk))] is 0, and [DecodeFileChunk] succeeds, returning a
    nil chunk and no error, both on the bytes behind the header of the
    frame and on the payload [ReadMessage] returns for the frame, which is
    the first sixteen of them, the length field of the frame holding 20. *)
Lemma FileChunk_oversized_wraps :
  maxChunkLen < len (zeros 4294967296)
  /\ DecodeFileChunk (Slice (frame_payload (EncodeFileChunk "" 0 (zeros 4294967296)))) =
       (EmptyString, 0, Nil, None)
  /\ fst (ReadMessage (NewReader (EncodeFileChunk "" 0 (zeros 4294967296)))) =
       (MsgFileChunk, Slice (string_wire "" ++ put64 0 ++ put32 0), None)
  /\ DecodeFileChunk (Slice (string_wire "" ++ put64 0 ++ put32 0)) =
       (EmptyString, 0, Nil, None).
Proof.
  split; [|split; [|split]].
  - rewrite len_zeros by lia. unfold maxChunkLen. lia.
  - unfold EncodeFileChunk.
    rewrite frame_payload_PackMessage, FileChunk_payload_wire by small.
    unfold DecodeFileChunk, NewReader. cbn [elems].
    rewrite DecodeFileChunk_zero.
    + reflexivity.
    + small.
    + rewrite len_zeros by lia. reflexivity.
  - apply ReadMessage_wrapped_chunk_frame. apply len_zeros. lia.
  - reflexivity.
Qed.

(** The first four of at least four zero bytes read as the [int32] 0. *)
Lemma zeros_split n :
  0 <= n -> elems (zeros (4 + n)) = put32 0 ++ elems (zeros n).
Proof.
  intros H. unfold zeros. cbn [elems].
  rewrite Z2Nat.inj_add by lia. rewrite repeat_app. reflexivity.
Qed.

(** With a transfer ID above the string cap, [EncodeFileChunk] drops the
    error of [WriteString] and the payload starts with the offset: the
    decoder takes the first four bytes of the offset for the length of the
    transfer ID, and the first four bytes of the chunk for its length. *)
Lemma DecodeFileChunk_dropped_transferID transferID chunk tail :
  maxStringLen < slen transferID ->
  len chunk = 104857601 -> elems chunk = put32 0 ++ tail ->
  DecodeFileChunk (Slice (frame_payload (EncodeFileChunk transferID 0 chunk))) =
    (EmptyString, 450359967032016896, Nil, None).
Proof.
  intros Hs Hc He.
  unfold EncodeFileChunk. rewrite frame_payload_PackMessage.
  unfold FileChunk_payload. rewrite WriteString_too_large by exact Hs.
  unfold new_Buffer, writeInt64, writeInt32, Buffer_Write. cbn [fst app].
  rewrite Hc, He. change (0 <? 104857601) with true. cbv iota.
  change (put64 0) with (string_wire "" ++ put32 0).
  rewrite <- !app_assoc.
  rewrite (Buffer_Bytes_cons (string_wire "" ++ _)) by apply string_wire_not_nil.
  change (put32 0 ++ put32 (Int.int32 104857601) ++ put32 0 ++ tail)
    with (put64 450359967032016896 ++ put32 0 ++ tail).
  unfold DecodeFileChunk, NewReader. cbn [elems].
  rewrite DecodeFileChunk_zero; [reflexivity | | reflexivity].
  unfold maxStringLen. cbn. lia.
Qed.

(** The bound on the transfer ID in C10 is needed too: a transfer ID of
    50,000,001 bytes, the offset 0 and a chunk of 104,857,601 zero bytes
    give a frame whose payload [DecodeFileChunk] accepts. *)
Lemma FileChunk_oversized_transferID :
  maxStringLen < slen (zero_string 50000001)
  /\ maxChunkLen < len (zeros (4 + 104857597)) < 2 ^ 32
  /\ DecodeFileChunk (Slice (frame_payload
       (EncodeFileChunk (zero_string 50000001) 0 (zeros (4 + 104857597))))) =
     (EmptyString, 450359967032016896, Nil, None).
Proof.
  assert (Hs : slen (zero_string 50000001) = 50000001) by (apply slen_zero_string; lia).
  assert (Hc : len (zeros (4 + 104857597)) = 104857601) by (rewrite len_zeros; lia).
  split; [rewrite Hs; unfold maxStringLen; lia|].
  split; [rewrite Hc; unfold maxChunkLen; change (2 ^ 32) with 4294967296; lia|].
  apply (DecodeFileChunk_dropped_transferID _ _ (elems (zeros 104857597))).
  - rewrite Hs. unfold maxStringLen. lia.
  - exact Hc.
  - apply zeros_split. lia.
Qed.

(** ** Per-type fidelity (C7) *)

(** C7, as the code has it. With every string within the string cap of
    50,000,000 bytes, every chunk within the chunk cap of 104,857,600
    bytes and every [int64] number, [ReadMessage] on the frame of an
    encoder returns the type of the message and a payload on which the
    decoder of the type returns the fields that were encoded, with no
    error; a chunk with no bytes comes back as the nil slice. *)
Theorem per_type_fidelity :
  (forall username,
     slen username <= maxStringLen ->
     exists payload,
       fst (ReadMessage (NewReader (EncodeHello username))) = (MsgHello, payload, None)
       /\ DecodeHello payload = (username, None))
  /\ (forall fileID name size,
       slen fileID <= maxStringLen -> slen name <= maxStringLen -> Int.is_int64 size ->
       exists payload,
         fst (ReadMessage (NewReader (EncodeFileAdvert fileID name size))) =
           (MsgFileAdvert, payload, None)
         /\ DecodeFileAdvert payload = (fileID, name, size, None))
  /\ (forall transferID fileID offset,
       slen transferID <= maxStringLen -> slen fileID <= maxStringLen ->
       Int.is_int64 offset ->
       exists payload,
         fst (ReadMessage (NewReader (EncodeGetFile transferID fileID offset))) =
           (MsgGetFile, payload, None)
         /\ DecodeGetFile payload = (transferID, fileID, offset, None))
  /\ (forall transferID offset chunk,
       slen transferID <= maxStringLen -> Int.is_int64 offset ->
       len chunk <= maxChunkLen ->
       exists payload chunk',
         fst (ReadMessage (NewReader (EncodeFileChunk transferID offset chunk))) =
           (MsgFileChunk, payload, None)
         /\ DecodeFileChunk payload = (transferID, offset, chunk', None)
         /\ bytes_Equal chunk chunk' = true
         /\ (0 < len chunk -> chunk' = Slice (elems chunk))
         /\ (len chunk = 0 -> chunk' = Nil)).
Proof.
  repeat apply conj.
  - intros u H. exists (Slice (string_wire u)). split.
    + rewrite EncodeHello_frame by exact H.
      apply ReadMessage_PackMessage_Slice; [small | apply string_wire_not_nil0 |].
      apply frame_fits. rewrite string_wire_length. unfold slen, maxChunkLen in *. lia.
    + unfold DecodeHello, DecodeHello_from, NewReader. cbn [elems].
      pose proof (ReadString_string_wire u [] [] H) as E.
      rewrite app_nil_r in E. now rewrite E.
  - intros f n size Hf Hn Hs.
    exists (Slice (string_wire f ++ string_wire n ++ put64 size)). split.
    + rewrite EncodeFileAdvert_frame by assumption.
      apply ReadMessage_PackMessage_Slice; [small | apply string_wire_not_nil |].
      apply frame_fits. rewrite !length_app, !string_wire_length, put64_length.
      unfold slen, maxChunkLen in *. lia.
    + unfold DecodeFileAdvert, NewReader. cbn [elems].
      pose proof (DecodeFileAdvert_wire f n size [] [] Hf Hn) as E.
      rewrite app_nil_r in E. rewrite E. cbn [fst]. now rewrite IntFacts.int64_id.
  - intros t f off Ht Hf Ho.
    exists (Slice (string_wire t ++ string_wire f ++ put64 off)). split.
    + rewrite EncodeGetFile_frame by assumption.
      apply ReadMessage_PackMessage_Slice; [small | apply string_wire_not_nil |].
      apply frame_fits. rewrite !length_app, !string_wire_length, put64_length.
      unfold slen, maxChunkLen in *. lia.
    + unfold DecodeGetFile, NewReader. cbn [elems].
      pose proof (DecodeGetFile_wire t f off [] [] Ht Hf) as E.
      rewrite app_nil_r in E. rewrite E. cbn [fst]. now rewrite IntFacts.int64_id.
  - intros t off chunk Ht Ho Hc.
    exists (FileChunk_payload t off chunk).
    exists (match elems chunk with [] => Nil | _ :: _ => Slice (elems chunk) end).
    split; [|split].
    + unfold EncodeFileChunk. rewrite FileChunk_payload_wire by exact Ht.
      apply ReadMessage_PackMessage_Slice; [small | apply string_wire_not_nil |].
      apply frame_fits.
      rewrite !length_app, !string_wire_length, put64_length, put32_length.
      unfold slen, len in *. lia.
    + now apply DecodeFileChunk_payload.
    + rewrite bytes_Equal_true. unfold len.
      destruct (elems chunk) as [|b l]; repeat split; try reflexivity;
        simpl List.length; intros; lia.
Qed.

(** The four examples: [alice]; [id1], [a.txt], 42; [tx], [f], 99; and
    [tx], 7 with the chunk 01 02 03. *)
Lemma per_type_fidelity_witness :
  (exists payload,
     fst (ReadMessage (NewReader (EncodeHello "alice"))) = (MsgHello, payload, None)
     /\ DecodeHello payload = ("alice"%string, None))
  /\ (exists payload,
       fst (ReadMessage (NewReader (EncodeFileAdvert "id1" "a.txt" 42))) =
         (MsgFileAdvert, payload, None)
       /\ DecodeFileAdvert payload = ("id1"%string, "a.txt"%string, 42, None))
  /\ (exists payload,
       fst (ReadMessage (NewReader (EncodeGetFile "tx" "f" 99))) =
         (MsgGetFile, payload, None)
       /\ DecodeGetFile payload = ("tx"%string, "f"%string, 99, None))
  /\ (exists payload chunk',
       fst (ReadMessage (NewReader
              (EncodeFileChunk "tx" 7 (Slice [Byte.x01; Byte.x02; Byte.x03])))) =
         (MsgFileChunk, payload, None)
       /\ DecodeFileChunk payload = ("tx"%string, 7, chunk', None)
       /\ chunk' = Slice [Byte.x01; Byte.x02; Byte.x03]).
Proof.
  destruct per_type_fidelity as [Hello [FileAdvert [GetFile FileChunk]]].
  repeat apply conj.
  - apply Hello. small.
  - apply FileAdvert; small.
  - apply GetFile; small.
  - destruct (FileChunk "tx"%string 7 (Slice [Byte.x01; Byte.x02; Byte.x03]))
      as [payload [chunk' [R [D [_ [C _]]]]]]; try small.
    exists payload, chunk'. repeat split; [exact R | exact D |].
    apply C. small.
Defined.

(** C7 as stated fails: for a user name of 50,000,001 bytes [WriteString]
    refuses the string, [EncodeHello] drops the error and frames an empty
    payload, and [DecodeHello] on the payload of that frame fails with
    [io.EOF]: the user name is not recovered. *)
Lemma EncodeHello_oversized :
  slen (zero_string 50000001) = 50000001
  /\ fst (ReadMessage (NewReader (EncodeHello (zero_string 50000001)))) =
       (MsgHello, Nil, None)
  /\ DecodeHello Nil = (EmptyString, Some EOF).
Proof.
  assert (H : slen (zero_string 50000001) = 50000001) by (apply slen_zero_string; lia).
  split; [exact H|]. split; [|reflexivity].
  unfold EncodeHello.
  rewrite WriteString_too_large by (rewrite H; unfold maxStringLen; lia).
  reflexivity.
Qed.

(** * Further properties of the codec *)

(** ** More on integers and streams *)

Lemma int64_range z : Int.is_int64 (Int.int64 z).
Proof.
  unfold Int.is_int64, Int.int64, Int.wrap. change (2 ^ (64 - 1)) with (2 ^ 63).
  change (2 ^ 63) with 9223372036854775808.
  change (2 ^ 64) with 18446744073709551616.
  pose proof (Z.mod_pos_bound (z + 9223372036854775808) 18446744073709551616). lia.
Qed.

(** Four bytes are the wire form of the [int32] they hold. *)
Lemma put32_get32 bs : List.length bs = 4%nat -> put32 (get32 bs) = bs.
Proof.
  intros H. unfold get32. rewrite put32_int32. unfold put32.
  rewrite <- H. apply split_le_combine.
Qed.

Lemma put32_inj a b : Int.is_int32 a -> Int.is_int32 b -> put32 a = put32 b -> a = b.
Proof.
  intros Ha Hb H. apply (f_equal get32) in H. rewrite !get32_put32 in H.
  now rewrite !IntFacts.int32_id in H.
Qed.

Lemma bytes_of_string_of_bytes b : bytes_of_string (string_of_bytes b) = b.
Proof. apply list_byte_of_string_of_list_byte. Qed.

(** What a successful [ReadString] has read. *)
Lemma ReadString_ok_inv inp a s st' :
  ReadString (mkState inp a) = ((s, None), st') ->
  (4 <= List.length inp)%nat
  /\ 0 <= leading_int32 inp <= maxStringLen
  /\ (Z.to_nat (leading_int32 inp) <= List.length (skipn 4 inp))%nat
  /\ s = string_of_bytes (firstn (Z.to_nat (leading_int32 inp)) (skipn 4 inp))
  /\ input st' = skipn (Z.to_nat (leading_int32 inp)) (skipn 4 inp).
Proof.
  intros E.
  destruct (Nat.lt_ge_cases (List.length inp) 4) as [H4|H4].
  { rewrite ReadString_no_length in E by exact H4. discriminate E. }
  set (l := leading_int32 inp) in *.
  destruct (Z.lt_ge_cases l 0) as [Hn|Hn].
  { rewrite ReadString_invalid in E by (try exact H4; now left). discriminate E. }
  destruct (Z.lt_ge_cases maxStringLen l) as [Hm|Hm].
  { rewrite ReadString_invalid in E by (try exact H4; now right). discriminate E. }
  destruct (Z.eq_dec l 0) as [Hz|Hz].
  { rewrite ReadString_zero in E by assumption. inversion E; subst; clear E.
    fold l. rewrite Hz. cbn [Z.to_nat firstn skipn input].
    repeat split; try lia; try (unfold maxStringLen; lia). }
  destruct (Nat.lt_ge_cases (List.length (skipn 4 inp)) (Z.to_nat l)) as [Hr|Hr].
  { rewrite ReadString_truncated in E by (try assumption; fold l; lia). discriminate E. }
  rewrite ReadString_read in E by (try assumption; fold l; lia).
  inversion E; subst; clear E. fold l. cbn [input]. repeat split; try lia; assumption.
Qed.

(** [ReadMessage] on a frame of [PackMessage] that is followed by [rest]. *)
Lemma ReadMessage_PackMessage_app m p rest a :
  Int.is_int32 m -> 4 + len p <= Int.max_int32 ->
  ReadMessage (mkState (elems (PackMessage m p) ++ rest) a) =
    ((m, match elems p with [] => Nil | _ :: _ => Slice (elems p) end, None),
     mkState rest (a ++ match elems p with [] => [] | _ :: _ => [len p] end)).
Proof.
  intros Hm Hp. pose proof (len_nonneg p) as H0.
  rewrite PackMessage_layout. cbn [elems].
  rewrite (IntFacts.int32_id m Hm).
  rewrite IntFacts.int32_id
    by (unfold Int.is_int32, Int.max_int32 in *; change (2 ^ 31) with 2147483648 in *; lia).
  rewrite <- !app_assoc.
  rewrite (ReadMessage_frame (4 + len p) m (elems p) rest a Hm eq_refl Hp).
  now replace (4 + len p - 4) with (len p) by lia.
Qed.

Lemma readInt_empty a :
  readInt32 (mkState [] a) = ((0, Some EOF), mkState [] a)
  /\ readInt64 (mkState [] a) = ((0, Some EOF), mkState [] a).
Proof. split; reflexivity. Qed.

Lemma eof_error_cons inp : inp <> [] -> eof_error inp = ErrUnexpectedEOF.
Proof. destruct inp; [congruence | reflexivity]. Qed.

(** The header of a stream of at least eight bytes, taken apart. *)
Lemma header_split inp :
  (8 <= List.length inp)%nat ->
  inp = put32 (frame_length inp) ++ put32 (frame_type inp) ++ frame_body inp.
Proof.
  intros H. unfold frame_length, frame_type, frame_body, leading_int32.
  rewrite !put32_get32.
  - now rewrite !firstn_skipn.
  - apply firstn_length_le. rewrite length_skipn. lia.
  - apply firstn_length_le. lia.
Qed.

(** ** Fixed-width integers *)

(** X1. An [int32] written by [writeInt32] takes four bytes and is read
    back by [readInt32], an [int64] written by [writeInt64] takes eight
    and is read back by [readInt64]: the write never fails and appends to
    the buffer, the read returns the number, negative ones included, and
    leaves the stream right behind it. *)
Theorem fixed_width_round_trip (buf : Buffer) (rest : list byte) (a : list Z) :
  (forall n, Int.is_int32 n ->
     exists w, writeInt32 buf n = (buf ++ w, None) /\ List.length w = 4%nat
       /\ readInt32 (mkState (w ++ rest) a) = ((n, None), mkState rest a))
  /\ (forall n, Int.is_int64 n ->
     exists w, writeInt64 buf n = (buf ++ w, None) /\ List.length w = 8%nat
       /\ readInt64 (mkState (w ++ rest) a) = ((n, None), mkState rest a)).
Proof.
  split; intros n Hn.
  - exists (put32 n). repeat split.
    now rewrite readInt32_put32, IntFacts.int32_id.
  - exists (put64 n). repeat split.
    now rewrite readInt64_put64, IntFacts.int64_id.
Qed.

(** The numbers -2 and 2^40, written to an empty buffer and read back. *)
Lemma fixed_width_round_trip_witness :
  (exists w, writeInt32 [] (-2) = ([] ++ w, None) /\ List.length w = 4%nat
     /\ readInt32 (mkState (w ++ [Byte.x2a]) []) = ((-2, None), mkState [Byte.x2a] []))
  /\ (exists w, writeInt64 [] 1099511627776 = ([] ++ w, None) /\ List.length w = 8%nat
     /\ readInt64 (mkState (w ++ [Byte.x2a]) []) =
          ((1099511627776, None), mkState [Byte.x2a] [])).
Proof.
  split.
  - apply (proj1 (fixed_width_round_trip [] [Byte.x2a] [])). small.
  - apply (proj2 (fixed_width_round_trip [] [Byte.x2a] [])). small.
Defined.

(** X2. On a stream that ends before the number does, [readInt32] and
    [readInt64] return 0 and an error, and the stream is drained: the
    error is [io.EOF] when no byte was left, [io.ErrUnexpectedEOF] when
    one to three (one to seven) bytes were. *)
Theorem fixed_width_short_read (inp : list byte) (a : list Z) :
  (inp = [] ->
     readInt32 (mkState inp a) = ((0, Some EOF), mkState [] a)
     /\ readInt64 (mkState inp a) = ((0, Some EOF), mkState [] a))
  /\ (inp <> [] -> (List.length inp < 4)%nat ->
      readInt32 (mkState inp a) = ((0, Some ErrUnexpectedEOF), mkState [] a))
  /\ (inp <> [] -> (List.length inp < 8)%nat ->
      readInt64 (mkState inp a) = ((0, Some ErrUnexpectedEOF), mkState [] a)).
Proof.
  repeat apply conj.
  - intros ->. apply readInt_empty.
  - intros Hne H. now rewrite readInt32_short, eof_error_cons.
  - intros Hne H. now rewrite readInt64_short, eof_error_cons.
Qed.

(** Three bytes for an [int32], five for an [int64]. *)
Lemma fixed_width_short_read_witness :
  readInt32 (mkState [Byte.x01; Byte.x00; Byte.x00] []) =
    ((0, Some ErrUnexpectedEOF), mkState [] [])
  /\ readInt64 (mkState [Byte.x01; Byte.x00; Byte.x00; Byte.x00; Byte.x00] []) =
       ((0, Some ErrUnexpectedEOF), mkState [] []).
Proof.
  split.
  - apply (proj1 (proj2 (fixed_width_short_read [Byte.x01; Byte.x00; Byte.x00] []))).
    + discriminate.
    + simpl. lia.
  - apply (proj2 (proj2 (fixed_width_short_read
      [Byte.x01; Byte.x00; Byte.x00; Byte.x00; Byte.x00] []))).
    + discriminate.
    + simpl. lia.
Defined.

(** ** Decoding, then encoding *)

(** X3. What [ReadString] accepts is the wire form of what it returns:
    when it succeeds with the string [s], the string is within the cap,
    [WriteString] writes it without error, and the stream was the bytes
    [WriteString] writes for [s] followed by what is left unread. *)
Theorem ReadString_canonical (inp : list byte) (a : list Z) (s : string) (st' : state) :
  ReadString (mkState inp a) = ((s, None), st') ->
  slen s <= maxStringLen
  /\ WriteString new_Buffer s = (string_wire s, None)
  /\ inp = string_wire s ++ input st'.
Proof.
  intros E. destruct (ReadString_ok_inv _ _ _ _ E) as (H4 & Hl & Hr & Hs & Hi).
  assert (Hlen : slen s = leading_int32 inp).
  { unfold slen. rewrite Hs, string_of_bytes_length, firstn_length_le by exact Hr. lia. }
  split; [lia|]. split; [apply (WriteString_ok new_Buffer); lia|].
  unfold string_wire. rewrite Hlen, Hi, Hs, bytes_of_string_of_bytes.
  unfold leading_int32. rewrite put32_get32 by (apply firstn_length_le; exact H4).
  now rewrite <- app_assoc, !firstn_skipn.
Qed.

(** The stream [02 00 00 00 68 69 21]: the string [hi], and [21] left. *)
Lemma ReadString_canonical_witness :
  [Byte.x02; Byte.x00; Byte.x00; Byte.x00; Byte.x68; Byte.x69; Byte.x21] =
    string_wire "hi" ++ input (mkState [Byte.x21] [2]).
Proof.
  refine (proj2 (proj2 (ReadString_canonical
    [Byte.x02; Byte.x00; Byte.x00; Byte.x00; Byte.x68; Byte.x69; Byte.x21] []
    "hi" (mkState [Byte.x21] [2]) _))).
  reflexivity.
Defined.

(** X4. What [ReadMessage] accepts is a frame of [PackMessage]: when it
    succeeds with the type [m] and the payload [p], the stream was the
    frame [PackMessage(m, p)] followed by what is left unread, and the
    frame length [4 + len(p)] is within the [int32] range. *)
Theorem ReadMessage_canonical (inp : list byte) (a : list Z)
    (m : MsgType) (p : ByteSlice) (st' : state) :
  ReadMessage (mkState inp a) = ((m, p, None), st') ->
  Int.is_int32 m
  /\ 4 + len p <= Int.max_int32
  /\ inp = elems (PackMessage m p) ++ input st'.
Proof.
  intros E.
  assert (Hmax : forall x, Int.is_int32 x -> x <= Int.max_int32).
  { unfold Int.is_int32, Int.max_int32. change (2 ^ 31) with 2147483648. lia. }
  pose proof (leading_int32_range inp) as RL.
  destruct (ReadMessage_cases inp a) as [? E'|? E'|? ? E'|H8 HL E'|H8 HL Hb E'|? ? ? E'];
    rewrite E' in E; inversion E; subst; clear E; cbn [input].
  - split; [apply leading_int32_range|].
    split; [change (len Nil) with 0; unfold Int.max_int32; change (2 ^ 31) with 2147483648; lia|].
    rewrite PackMessage_layout. cbn [elems].
    change (len Nil) with 0. rewrite !put32_int32. rewrite app_nil_r.
    change (4 + 0) with 4. rewrite <- HL. rewrite <- app_assoc.
    now apply header_split.
  - assert (Hlen : 4 + len (Slice (firstn (Z.to_nat (frame_length inp - 4)) (frame_body inp)))
                   = frame_length inp).
    { rewrite len_Slice, firstn_length_le by exact Hb. lia. }
    split; [apply leading_int32_range|]. split; [rewrite Hlen; now apply Hmax|].
    rewrite PackMessage_layout, Hlen. cbn [elems]. rewrite !put32_int32.
    rewrite <- !app_assoc, firstn_skipn. now apply header_split.
Qed.

(** A frame with the unknown type 7 and one payload byte, and one byte
    behind the frame. *)
Lemma ReadMessage_canonical_witness :
  [Byte.x05; Byte.x00; Byte.x00; Byte.x00; Byte.x07; Byte.x00; Byte.x00; Byte.x00;
   Byte.x2a; Byte.xff] =
    elems (PackMessage 7 (Slice [Byte.x2a])) ++ input (mkState [Byte.xff] [1]).
Proof.
  refine (proj2 (proj2 (ReadMessage_canonical
    [Byte.x05; Byte.x00; Byte.x00; Byte.x00; Byte.x07; Byte.x00; Byte.x00; Byte.x00;
     Byte.x2a; Byte.xff] [] 7 (Slice [Byte.x2a]) (mkState [Byte.xff] [1]) _))).
  reflexivity.
Defined.

(** ** Frames on a stream *)

(** X5. Frames written one after the other are read back one after the
    other: on the frames of [PackMessage(m1, p1)] and [PackMessage(m2,
    p2)] followed by [rest], a first [ReadMessage] returns [m1] and the
    bytes of [p1], a second one [m2] and the bytes of [p2], and [rest] is
    left unread. The frame lengths are to fit the [int32] length field. *)
Theorem ReadMessage_sequence (m1 m2 : MsgType) (p1 p2 : ByteSlice) (rest : list byte) :
  Int.is_int32 m1 -> Int.is_int32 m2 ->
  4 + len p1 <= Int.max_int32 -> 4 + len p2 <= Int.max_int32 ->
  exists q1 q2 st1 st2,
    ReadMessage (mkState (elems (PackMessage m1 p1) ++ elems (PackMessage m2 p2) ++ rest) []) =
      ((m1, q1, None), st1)
    /\ ReadMessage st1 = ((m2, q2, None), st2)
    /\ bytes_Equal p1 q1 = true /\ bytes_Equal p2 q2 = true
    /\ input st2 = rest.
Proof.
  intros Hm1 Hm2 Hp1 Hp2.
  do 4 eexists. split; [now apply ReadMessage_PackMessage_app|].
  split; [now apply ReadMessage_PackMessage_app|].
  repeat split; try (apply bytes_Equal_true); try reflexivity.
  - now destruct (elems p1).
  - now destruct (elems p2).
Qed.

(** A ping frame, then a hello frame with the payload [61 62], then one
    more byte. *)
Lemma ReadMessage_sequence_witness :
  exists q1 q2 st1 st2,
    ReadMessage (mkState (elems (PackMessage MsgPing Nil)
                          ++ elems (PackMessage MsgHello (Slice [Byte.x61; Byte.x62]))
                          ++ [Byte.xff]) []) =
      ((MsgPing, q1, None), st1)
    /\ ReadMessage st1 = ((MsgHello, q2, None), st2)
    /\ bytes_Equal Nil q1 = true /\ bytes_Equal (Slice [Byte.x61; Byte.x62]) q2 = true
    /\ input st2 = [Byte.xff].
Proof.
  apply (ReadMessage_sequence MsgPing MsgHello Nil (Slice [Byte.x61; Byte.x62]) [Byte.xff]);
    unfold MsgPing; small.
Defined.

(** X6. [PackMessage] is injective, whatever the size of the payload: two
    frames that are equal have the same type and the same payload bytes. *)
Theorem PackMessage_injective (m1 m2 : MsgType) (p1 p2 : ByteSlice) :
  Int.is_int32 m1 -> Int.is_int32 m2 ->
  PackMessage m1 p1 = PackMessage m2 p2 ->
  m1 = m2 /\ elems p1 = elems p2.
Proof.
  intros H1 H2 E. rewrite !PackMessage_layout in E.
  apply (f_equal elems) in E. cbn [elems] in E. rename E into E'.
  apply (f_equal (skipn 4)) in E'. rewrite !skipn_exact in E' by apply put32_length.
  split.
  - apply (f_equal (firstn 4)) in E'. rewrite !firstn_exact in E' by apply put32_length.
    rewrite !put32_int32 in E'. now apply put32_inj.
  - apply (f_equal (skipn 4)) in E'. now rewrite !skipn_exact in E' by apply put32_length.
Qed.

(** Two equal frames, one of a nil and one of an empty payload. *)
Lemma PackMessage_injective_witness :
  MsgPing = MsgPing /\ elems Nil = elems (Slice []).
Proof.
  apply (PackMessage_injective MsgPing MsgPing Nil (Slice [])).
  - unfold MsgPing. small.
  - unfold MsgPing. small.
  - reflexivity.
Defined.

(** X7. [ReadMessage] puts no cap on the declared length: with the eight
    header bytes there and a declared length [L] above 4, it allocates a
    buffer of [L - 4] bytes, whatever [L] is and however few bytes follow
    the header; when fewer than [L - 4] follow, the buffer is allocated all
    the same, and the call fails with a truncated read. *)
Theorem ReadMessage_allocates_declared_length (inp : list byte) (a : list Z) :
  (8 <= List.length inp)%nat -> 4 < frame_length inp ->
  allocs (snd (ReadMessage (mkState inp a))) = a ++ [frame_length inp - 4]
  /\ ((List.length (frame_body inp) < Z.to_nat (frame_length inp - 4))%nat ->
      fails_with (fst (ReadMessage (mkState inp a))) TruncatedRead).
Proof.
  intros H8 HL.
  destruct (Nat.lt_ge_cases (List.length (frame_body inp)) (Z.to_nat (frame_length inp - 4)))
    as [Hb|Hb].
  - rewrite ReadMessage_truncated by assumption. split; [reflexivity|].
    intros _. eexists. split; [reflexivity | apply kind_eof_error].
  - rewrite ReadMessage_read by assumption. split; [reflexivity|]. lia.
Qed.

(** The eight bytes [ff ff ff 7f 01 00 00 00] and nothing else: the
    declared length is 2^31 - 1, and 2147483643 bytes are allocated. *)
Lemma ReadMessage_allocates_declared_length_witness :
  (allocs (snd (ReadMessage (mkState
      [Byte.xff; Byte.xff; Byte.xff; Byte.x7f; Byte.x01; Byte.x00; Byte.x00; Byte.x00] []))) =
     [] ++ [frame_length
              [Byte.xff; Byte.xff; Byte.xff; Byte.x7f; Byte.x01; Byte.x00; Byte.x00; Byte.x00]
            - 4]
   /\ ((List.length (frame_body
          [Byte.xff; Byte.xff; Byte.xff; Byte.x7f; Byte.x01; Byte.x00; Byte.x00; Byte.x00])
        < Z.to_nat (frame_length
            [Byte.xff; Byte.xff; Byte.xff; Byte.x7f; Byte.x01; Byte.x00; Byte.x00; Byte.x00]
            - 4))%nat ->
       fails_with (fst (ReadMessage (mkState
         [Byte.xff; Byte.xff; Byte.xff; Byte.x7f; Byte.x01; Byte.x00; Byte.x00; Byte.x00] [])))
         TruncatedRead))
  /\ frame_length
       [Byte.xff; Byte.xff; Byte.xff; Byte.x7f; Byte.x01; Byte.x00; Byte.x00; Byte.x00] - 4
     = 2147483643.
Proof.
  split.
  - apply (ReadMessage_allocates_declared_length
      [Byte.xff; Byte.xff; Byte.xff; Byte.x7f; Byte.x01; Byte.x00; Byte.x00; Byte.x00] []).
    + simpl. lia.
    + vm_compute. reflexivity.
  - vm_compute. reflexivity.
Defined.

(** ** Results of the readers on any stream *)

Lemma ReadFull_error buf st :
  match snd (fst (ReadFull buf st)) with
  | None => List.length (fst (fst (ReadFull buf st))) = List.length buf
  | Some e => kind e = TruncatedRead
  end.
Proof.
  unfold ReadFull.
  destruct (Nat.leb_spec (List.length buf) (List.length (input st))) as [H|H].
  - cbn [fst snd]. now apply firstn_length_le.
  - destruct (input st); reflexivity.
Qed.

Lemma try_all_or_nothing {A B} (c : M (A * option error)) (zc : A) (z : B)
    (k : A -> M (B * option error)) :
  (forall st, all_or_nothing zc (fst (c st))) ->
  (forall x st, all_or_nothing z (fst (k x st))) ->
  forall st, all_or_nothing z (fst (try c (fun err => (z, Some err)) k st)).
Proof.
  intros Hc Hk st. unfold try. specialize (Hc st).
  destruct (c st) as [[x [e|]] st1]; cbn [fst snd] in *.
  - unfold all_or_nothing in *. cbn [fst snd] in *. split; [reflexivity | apply Hc].
  - apply Hk.
Qed.

Lemma readInt32_all_or_nothing st : all_or_nothing 0 (fst (readInt32 st)).
Proof.
  unfold readInt32, try, binary_Read. pose proof (ReadFull_error (repeat Byte.x00 4) st) as H.
  destruct (ReadFull (repeat Byte.x00 4) st) as [[b [e|]] st1]; cbn [fst snd] in *.
  - split; [reflexivity | now left].
  - exact I.
Qed.

Lemma readInt64_all_or_nothing st : all_or_nothing 0 (fst (readInt64 st)).
Proof.
  unfold readInt64, try, binary_Read. pose proof (ReadFull_error (repeat Byte.x00 8) st) as H.
  destruct (ReadFull (repeat Byte.x00 8) st) as [[b [e|]] st1]; cbn [fst snd] in *.
  - split; [reflexivity | now left].
  - exact I.
Qed.

Lemma ReadString_all_or_nothing st : all_or_nothing EmptyString (fst (ReadString st)).
Proof.
  unfold ReadString. apply (try_all_or_nothing _ 0); [apply readInt32_all_or_nothing|].
  intros l st1.
  destruct ((l <? 0) || (maxStringLen <? l)); [split; [reflexivity | now right]|].
  destruct (l =? 0); [exact I|].
  unfold bind. destruct (make l st1) as [b st2]. unfold try.
  pose proof (ReadFull_error b st2) as H.
  destruct (ReadFull b st2) as [[b' [e|]] st3]; cbn [fst snd] in *.
  - split; [reflexivity | now left].
  - exact I.
Qed.

Lemma DecodeFileAdvert_all_or_nothing st :
  all_or_nothing (EmptyString, EmptyString, 0) (fst (DecodeFileAdvert_from st)).
Proof.
  unfold DecodeFileAdvert_from.
  apply (try_all_or_nothing _ EmptyString); [apply ReadString_all_or_nothing|]. intros x st1.
  apply (try_all_or_nothing _ EmptyString); [apply ReadString_all_or_nothing|]. intros y st2.
  apply (try_all_or_nothing _ 0); [apply readInt64_all_or_nothing|]. intros z st3.
  exact I.
Qed.

Lemma DecodeGetFile_all_or_nothing st :
  all_or_nothing (EmptyString, EmptyString, 0) (fst (DecodeGetFile_from st)).
Proof.
  unfold DecodeGetFile_from.
  apply (try_all_or_nothing _ EmptyString); [apply ReadString_all_or_nothing|]. intros x st1.
  apply (try_all_or_nothing _ EmptyString); [apply ReadString_all_or_nothing|]. intros y st2.
  apply (try_all_or_nothing _ 0); [apply readInt64_all_or_nothing|]. intros z st3.
  exact I.
Qed.

Lemma DecodeFileChunk_all_or_nothing st :
  all_or_nothing (EmptyString, 0, Nil) (fst (DecodeFileChunk_from st)).
Proof.
  unfold DecodeFileChunk_from.
  apply (try_all_or_nothing _ EmptyString); [apply ReadString_all_or_nothing|]. intros x st1.
  apply (try_all_or_nothing _ 0); [apply readInt64_all_or_nothing|]. intros y st2.
  apply (try_all_or_nothing _ 0); [apply readInt32_all_or_nothing|]. intros c st3.
  destruct ((c <? 0) || (maxChunkLen <? c)); [split; [reflexivity | now right]|].
  destruct (c =? 0); [exact I|].
  unfold bind. destruct (make c st3) as [b st4]. unfold try.
  pose proof (ReadFull_error b st4) as H.
  destruct (ReadFull b st4) as [[b' [e|]] st5]; cbn [fst snd] in *.
  - split; [reflexivity | now left].
  - exact I.
Qed.

Lemma readInt64_range st : Int.is_int64 (fst (fst (readInt64 st))).
Proof.
  unfold readInt64, try, binary_Read.
  destruct (ReadFull (repeat Byte.x00 8) st) as [[b [e|]] st1]; cbn [fst snd ret].
  - unfold Int.is_int64. cbn. lia.
  - apply int64_range.
Qed.

Lemma readInt32_range st : Int.is_int32 (fst (fst (readInt32 st))).
Proof.
  unfold readInt32, try, binary_Read.
  destruct (ReadFull (repeat Byte.x00 4) st) as [[b [e|]] st1]; cbn [fst snd ret].
  - unfold Int.is_int32. cbn. lia.
  - apply IntFacts.int32_range.
Qed.

Lemma ReadString_ok_slen st s st' :
  ReadString st = ((s, None), st') -> slen s <= maxStringLen.
Proof.
  destruct st as [inp a]. intros E.
  destruct (ReadString_ok_inv _ _ _ _ E) as (H4 & Hl & Hr & Hs & Hi).
  unfold slen. rewrite Hs, string_of_bytes_length, firstn_length_le by exact Hr. lia.
Qed.

(** A chunk that is shorter than its declared length. *)
Lemma DecodeFileChunk_truncated transferID offset c rest a :
  slen transferID <= maxStringLen ->
  0 < Int.int32 c <= maxChunkLen ->
  (List.length rest < Z.to_nat (Int.int32 c))%nat ->
  DecodeFileChunk_from (mkState (string_wire transferID ++ put64 offset ++ put32 c ++ rest) a) =
    ((EmptyString, 0, Nil, Some (eof_error rest)),
     mkState [] ((a ++ string_allocs transferID) ++ [Int.int32 c])).
Proof.
  intros Hid H Hr. unfold DecodeFileChunk_from.
  rewrite read_string_int64_int32 by exact Hid.
  replace ((Int.int32 c <? 0) || (maxChunkLen <? Int.int32 c)) with false
    by (symmetry; apply orb_false_iff; split; apply Z.ltb_ge; lia).
  replace (Int.int32 c =? 0) with false by (symmetry; apply Z.eqb_neq; lia).
  unfold bind, try. rewrite make_eq.
  destruct (ReadFull_make_short (Int.int32 c) rest
              ((a ++ string_allocs transferID) ++ [Int.int32 c]) Hr) as [b ->].
  reflexivity.
Qed.

(** What a successful [DecodeFileChunk] returns, on any stream. *)
Lemma DecodeFileChunk_ok_inv st transferID offset chunk :
  fst (DecodeFileChunk_from st) = (transferID, offset, chunk, None) ->
  slen transferID <= maxStringLen /\ Int.is_int64 offset
  /\ len chunk <= maxChunkLen /\ (chunk = Nil \/ 0 < len chunk).
Proof.
  unfold DecodeFileChunk_from, try.
  destruct (ReadString st) as [[s [e|]] st1] eqn:E1; cbn [fst snd]; [discriminate|].
  apply ReadString_ok_slen in E1.
  pose proof (readInt64_range st1) as R2.
  destruct (readInt64 st1) as [[o [e|]] st2]; cbn [fst snd] in *; [discriminate|].
  destruct (readInt32 st2) as [[c [e|]] st3]; cbn [fst snd] in *; [discriminate|].
  destruct ((c <? 0) || (maxChunkLen <? c)) eqn:Ec; [discriminate|].
  apply orb_false_iff in Ec. destruct Ec as [Ec1 Ec2].
  apply Z.ltb_ge in Ec1, Ec2.
  destruct (Z.eqb_spec c 0) as [Ez|Ez].
  - cbn [ret fst]. intros H. inversion H; subst.
    split; [assumption|]. split; [assumption|].
    split; [unfold maxChunkLen; cbn; lia | now left].
  - unfold bind. rewrite (surjective_pairing (make c st3)).
    pose proof (ReadFull_error (fst (make c st3)) (snd (make c st3))) as RF.
    destruct (ReadFull (fst (make c st3)) (snd (make c st3))) as [[b [e|]] st5];
      cbn [fst snd ret] in *; [discriminate|].
    intros H. inversion H; subst.
    assert (Hb : len (Slice b) = c).
    { rewrite len_Slice, RF. cbn [make fst]. rewrite repeat_length. lia. }
    split; [assumption|]. split; [assumption|]. split; [lia | right; lia].
Qed.

(** ** Decoders on any payload *)

(** X8. Decoding is all or nothing, on every payload: when [DecodeHello],
    [DecodeFileAdvert], [DecodeGetFile] or [DecodeFileChunk] returns an
    error, every field it returns is the zero value (empty string, 0, nil
    chunk), and the error is a truncated read or an invalid length. *)
Theorem decoders_all_or_nothing (payload : ByteSlice) :
  all_or_nothing EmptyString (DecodeHello payload)
  /\ all_or_nothing (EmptyString, EmptyString, 0) (DecodeFileAdvert payload)
  /\ all_or_nothing (EmptyString, EmptyString, 0) (DecodeGetFile payload)
  /\ all_or_nothing (EmptyString, 0, Nil) (DecodeFileChunk payload).
Proof.
  repeat apply conj.
  - apply ReadString_all_or_nothing.
  - apply DecodeFileAdvert_all_or_nothing.
  - apply DecodeGetFile_all_or_nothing.
  - apply DecodeFileChunk_all_or_nothing.
Qed.

(** X9. The decoders read the fields and ignore what follows them: a
    payload with any bytes behind the last field decodes to the same
    fields as the payload without them, with no error. *)
Theorem decoders_ignore_trailing_bytes (rest : list byte) :
  (forall username,
     slen username <= maxStringLen ->
     DecodeHello (Slice (string_wire username ++ rest)) = (username, None))
  /\ (forall fileID name size,
       slen fileID <= maxStringLen -> slen name <= maxStringLen -> Int.is_int64 size ->
       DecodeFileAdvert (Slice (string_wire fileID ++ string_wire name ++ put64 size ++ rest)) =
         (fileID, name, size, None))
  /\ (forall transferID fileID offset,
       slen transferID <= maxStringLen -> slen fileID <= maxStringLen ->
       Int.is_int64 offset ->
       DecodeGetFile
         (Slice (string_wire transferID ++ string_wire fileID ++ put64 offset ++ rest)) =
         (transferID, fileID, offset, None))
  /\ (forall transferID offset chunk,
       slen transferID <= maxStringLen -> Int.is_int64 offset ->
       chunk <> [] -> len (Slice chunk) <= maxChunkLen ->
       DecodeFileChunk
         (Slice (string_wire transferID ++ put64 offset ++ put32 (len (Slice chunk))
                 ++ chunk ++ rest)) =
         (transferID, offset, Slice chunk, None)).
Proof.
  repeat apply conj.
  - intros u H. unfold DecodeHello, DecodeHello_from, NewReader. cbn [elems].
    now rewrite ReadString_string_wire.
  - intros f n size Hf Hn Hs. unfold DecodeFileAdvert, NewReader. cbn [elems].
    rewrite DecodeFileAdvert_wire by assumption. cbn [fst].
    now rewrite IntFacts.int64_id.
  - intros t f off Ht Hf Ho. unfold DecodeGetFile, NewReader. cbn [elems].
    rewrite DecodeGetFile_wire by assumption. cbn [fst].
    now rewrite IntFacts.int64_id.
  - intros t off chunk Ht Ho Hne Hc. unfold DecodeFileChunk, NewReader. cbn [elems].
    assert (Hpos : 0 < len (Slice chunk)).
    { rewrite len_Slice. destruct chunk; [congruence | simpl; lia]. }
    assert (Hl : Int.int32 (len (Slice chunk)) = len (Slice chunk)).
    { apply IntFacts.int32_id. unfold Int.is_int32, maxChunkLen in *.
      change (2 ^ 31) with 2147483648. lia. }
    assert (Hn : Z.to_nat (len (Slice chunk)) = List.length chunk).
    { rewrite len_Slice. apply Nat2Z.id. }
    rewrite DecodeFileChunk_read; rewrite ?Hl; try assumption; try lia.
    + cbn [fst]. now rewrite Hn, firstn_exact, IntFacts.int64_id.
    + rewrite Hn, length_app. lia.
Qed.

(** A hello payload and a file chunk payload, each with the byte [ff]
    behind the last field. *)
Lemma decoders_ignore_trailing_bytes_witness :
  DecodeHello (Slice (string_wire "alice" ++ [Byte.xff])) = ("alice"%string, None)
  /\ DecodeFileChunk
       (Slice (string_wire "tx" ++ put64 7 ++ put32 (len (Slice [Byte.x01; Byte.x02]))
               ++ [Byte.x01; Byte.x02] ++ [Byte.xff])) =
       ("tx"%string, 7, Slice [Byte.x01; Byte.x02], None).
Proof.
  split.
  - apply (proj1 (decoders_ignore_trailing_bytes [Byte.xff])). small.
  - apply (proj2 (proj2 (proj2 (decoders_ignore_trailing_bytes [Byte.xff])))).
    + small.
    + small.
    + discriminate.
    + small.
Defined.

(** X10. When [DecodeFileChunk] succeeds, on any payload, the transfer ID
    is within the string cap, the offset is an [int64], the chunk is
    within the chunk cap, and the chunk is either nil or not empty: it is
    never a non-nil slice of length 0. *)
Theorem DecodeFileChunk_success_bounds (payload : ByteSlice)
    (transferID : string) (offset : Z) (chunk : ByteSlice) :
  DecodeFileChunk payload = (transferID, offset, chunk, None) ->
  slen transferID <= maxStringLen
  /\ Int.is_int64 offset
  /\ len chunk <= maxChunkLen
  /\ (chunk = Nil \/ 0 < len chunk).
Proof. unfold DecodeFileChunk. apply DecodeFileChunk_ok_inv. Qed.

(** The payload of [EncodeFileChunk("tx", 7, {1, 2})]. *)
Lemma DecodeFileChunk_success_bounds_witness :
  slen "tx" <= maxStringLen
  /\ Int.is_int64 7
  /\ len (Slice [Byte.x01; Byte.x02]) <= maxChunkLen
  /\ (Slice [Byte.x01; Byte.x02] = Nil \/ 0 < len (Slice [Byte.x01; Byte.x02])).
Proof.
  apply (DecodeFileChunk_success_bounds
           (FileChunk_payload "tx" 7 (Slice [Byte.x01; Byte.x02]))).
  reflexivity.
Defined.

(** X11. A chunk that is shorter than its declared length is a truncated
    read: with a declared chunk length within the cap and fewer bytes
    behind it, [DecodeFileChunk] allocates the buffer of the declared
    length, drains the payload, and fails with a truncated read and zero
    values. *)
Theorem DecodeFileChunk_short_chunk (transferID : string) (offset chLen : Z)
    (rest : list byte) :
  slen transferID <= maxStringLen ->
  0 < chLen <= maxChunkLen -> Z.of_nat (List.length rest) < chLen ->
  DecodeFileChunk_from
    (NewReader (Slice (string_wire transferID ++ put64 offset ++ put32 chLen ++ rest))) =
    ((EmptyString, 0, Nil, Some (eof_error rest)),
     mkState [] (string_allocs transferID ++ [chLen]))
  /\ fails_with
       (DecodeFileChunk (Slice (string_wire transferID ++ put64 offset ++ put32 chLen ++ rest)))
       TruncatedRead.
Proof.
  intros Hid Hc Hr.
  assert (Hl : Int.int32 chLen = chLen).
  { apply IntFacts.int32_id. unfold Int.is_int32, maxChunkLen in *.
    change (2 ^ 31) with 2147483648. lia. }
  assert (E : DecodeFileChunk_from
                (NewReader (Slice (string_wire transferID ++ put64 offset ++ put32 chLen ++ rest))) =
              ((EmptyString, 0, Nil, Some (eof_error rest)),
               mkState [] (string_allocs transferID ++ [chLen]))).
  { unfold NewReader. cbn [elems].
    rewrite DecodeFileChunk_truncated; rewrite ?Hl; try assumption; try lia.
    reflexivity. }
  split; [exact E|]. unfold DecodeFileChunk. rewrite E.
  eexists. split; [reflexivity | apply kind_eof_error].
Qed.

(** A payload that declares the largest chunk, 104,857,600 bytes, and
    holds two. *)
Lemma DecodeFileChunk_short_chunk_witness :
  DecodeFileChunk_from
    (NewReader (Slice (string_wire "tx" ++ put64 7 ++ put32 104857600
                       ++ [Byte.x01; Byte.x02]))) =
    ((EmptyString, 0, Nil, Some (eof_error [Byte.x01; Byte.x02])),
     mkState [] (string_allocs "tx" ++ [104857600]))
  /\ fails_with
       (DecodeFileChunk (Slice (string_wire "tx" ++ put64 7 ++ put32 104857600
                                ++ [Byte.x01; Byte.x02])))
       TruncatedRead.
Proof.
  apply (DecodeFileChunk_short_chunk "tx" 7 104857600 [Byte.x01; Byte.x02]).
  - small.
  - unfold maxChunkLen. lia.
  - cbn. lia.
Defined.

(** ** Encoders *)

(** X12. The encoders never fail, and a string above the string cap
    leaves no trace in the frame: [WriteString] refuses it, the encoder
    drops the error, and the payload holds the other fields only. Every
    user name above the cap gives the hello frame with the empty payload;
    a file advert or a file chunk with such an ID starts with the field
    behind it. *)
Theorem encoders_drop_oversized_strings :
  (forall username,
     maxStringLen < slen username ->
     EncodeHello username = PackMessage MsgHello Nil)
  /\ (forall fileID name size,
       maxStringLen < slen fileID -> slen name <= maxStringLen ->
       EncodeFileAdvert fileID name size =
         PackMessage MsgFileAdvert (Slice (string_wire name ++ put64 size)))
  /\ (forall transferID fileID offset,
       maxStringLen < slen transferID -> slen fileID <= maxStringLen ->
       EncodeGetFile transferID fileID offset =
         PackMessage MsgGetFile (Slice (string_wire fileID ++ put64 offset)))
  /\ (forall transferID offset chunk,
       maxStringLen < slen transferID ->
       EncodeFileChunk transferID offset chunk =
         PackMessage MsgFileChunk
           (Slice (put64 offset ++ put32 (len chunk) ++ elems chunk))).
Proof.
  repeat apply conj.
  - intros u H. unfold EncodeHello. now rewrite WriteString_too_large by exact H.
  - intros f n size Hf Hn. unfold EncodeFileAdvert.
    rewrite (WriteString_too_large _ f) by exact Hf. cbn [fst].
    rewrite (WriteString_ok _ n) by exact Hn.
    unfold new_Buffer, writeInt64. cbn [fst app]. apply f_equal.
    apply Buffer_Bytes_cons, string_wire_not_nil.
  - intros t f off Ht Hf. unfold EncodeGetFile.
    rewrite (WriteString_too_large _ t) by exact Ht. cbn [fst].
    rewrite (WriteString_ok _ f) by exact Hf.
    unfold new_Buffer, writeInt64. cbn [fst app]. apply f_equal.
    apply Buffer_Bytes_cons, string_wire_not_nil.
  - intros t off chunk Ht. unfold EncodeFileChunk, FileChunk_payload.
    rewrite WriteString_too_large by exact Ht.
    unfold new_Buffer, writeInt64, writeInt32, Buffer_Write. cbn [fst app].
    rewrite put32_int32. apply f_equal.
    assert (E : elems chunk = [] -> put32 (len chunk) = put32 (len chunk) ++ elems chunk).
    { intros ->. now rewrite app_nil_r. }
    assert (N : forall l, put64 off ++ l <> []).
    { intros l H. apply (f_equal (@List.length byte)) in H.
      rewrite length_app, put64_length in H. simpl in H. lia. }
    destruct (Z.ltb_spec 0 (len chunk)) as [Hc|Hc].
    2: rewrite (E (len_zero_elems chunk ltac:(pose proof (len_nonneg chunk); lia))) at 1.
    all: rewrite <- ?app_assoc; apply Buffer_Bytes_cons, N.
Qed.

(** A user name of 50,000,001 bytes: the frame is that of an empty
    payload, eight bytes long. *)
Lemma encoders_drop_oversized_strings_witness :
  EncodeHello (zero_string 50000001) = PackMessage MsgHello Nil.
Proof.
  apply (proj1 encoders_drop_oversized_strings).
  rewrite slen_zero_string by lia. unfold maxStringLen. lia.
Defined.

(** X13. The frames of the encoders, byte for byte, for strings within
    the string cap: the length field, the type, and the fields in their
    order, each string as its length and its bytes, each number little
    endian. The length fields hold the low 32 bits of the lengths. *)
Theorem encoders_wire_layout :
  EncodePing = Slice (put32 4 ++ put32 MsgPing)
  /\ (forall username,
       slen username <= maxStringLen ->
       EncodeHello username =
         Slice (put32 (4 + (4 + slen username)) ++ put32 MsgHello
                ++ put32 (slen username) ++ bytes_of_string username))
  /\ (forall fileID name size,
       slen fileID <= maxStringLen -> slen name <= maxStringLen ->
       EncodeFileAdvert fileID name size =
         Slice (put32 (4 + ((4 + slen fileID) + (4 + slen name) + 8)) ++ put32 MsgFileAdvert
                ++ put32 (slen fileID) ++ bytes_of_string fileID
                ++ put32 (slen name) ++ bytes_of_string name ++ put64 size))
  /\ (forall transferID fileID offset,
       slen transferID <= maxStringLen -> slen fileID <= maxStringLen ->
       EncodeGetFile transferID fileID offset =
         Slice (put32 (4 + ((4 + slen transferID) + (4 + slen fileID) + 8)) ++ put32 MsgGetFile
                ++ put32 (slen transferID) ++ bytes_of_string transferID
                ++ put32 (slen fileID) ++ bytes_of_string fileID ++ put64 offset))
  /\ (forall transferID offset chunk,
       slen transferID <= maxStringLen ->
       EncodeFileChunk transferID offset chunk =
         Slice (put32 (4 + ((4 + slen transferID) + 8 + 4 + len chunk)) ++ put32 MsgFileChunk
                ++ put32 (slen transferID) ++ bytes_of_string transferID
                ++ put64 offset ++ put32 (len chunk) ++ elems chunk)).
Proof.
  repeat apply conj.
  - reflexivity.
  - intros u H. rewrite EncodeHello_frame, PackMessage_layout by exact H.
    rewrite !put32_int32. cbn [elems]. unfold string_wire.
    rewrite len_Slice, length_app, put32_length, bytes_of_string_length.
    rewrite <- ?app_assoc. do 2 f_equal. unfold slen. f_equal. lia.
  - intros f n size Hf Hn. rewrite EncodeFileAdvert_frame, PackMessage_layout by assumption.
    rewrite !put32_int32. cbn [elems]. unfold string_wire.
    rewrite len_Slice, !length_app, !put32_length, !bytes_of_string_length, put64_length.
    rewrite <- ?app_assoc. do 2 f_equal. unfold slen. f_equal. lia.
  - intros t f off Ht Hf. rewrite EncodeGetFile_frame, PackMessage_layout by assumption.
    rewrite !put32_int32. cbn [elems]. unfold string_wire.
    rewrite len_Slice, !length_app, !put32_length, !bytes_of_string_length, put64_length.
    rewrite <- ?app_assoc. do 2 f_equal. unfold slen. f_equal. lia.
  - intros t off chunk Ht. unfold EncodeFileChunk.
    rewrite FileChunk_payload_wire, PackMessage_layout by exact Ht.
    rewrite !put32_int32. cbn [elems]. unfold string_wire.
    rewrite len_Slice, !length_app, !put32_length, !bytes_of_string_length, put64_length.
    rewrite <- ?app_assoc. do 2 f_equal. unfold slen, len. f_equal. lia.
Qed.

(** The frame of [EncodeHello("hi")]: fourteen bytes. *)
Lemma encoders_wire_layout_witness :
  EncodeHello "hi" =
    Slice (put32 (4 + (4 + slen "hi")) ++ put32 MsgHello
           ++ put32 (slen "hi") ++ bytes_of_string "hi")
  /\ EncodeHello "hi" =
       Slice [Byte.x0a; Byte.x00; Byte.x00; Byte.x00; Byte.x01; Byte.x00; Byte.x00; Byte.x00;
              Byte.x02; Byte.x00; Byte.x00; Byte.x00; Byte.x68; Byte.x69].
Proof.
  split; [|reflexivity].
  apply (proj1 (proj2 encoders_wire_layout)). small.
Defined.

(** ** Allocations *)

Lemma capped_none cap {A} (c : M A) :
  (forall st, allocs (snd (c st)) = allocs st) -> capped cap c.
Proof. intros H st. exists []. now rewrite app_nil_r, H. Qed.

Lemma capped_weaken cap cap' {A} (c : M A) :
  cap <= cap' -> capped cap c -> capped cap' c.
Proof.
  intros Hle H st. destruct (H st) as [extra [E F]]. exists extra. split; [exact E|].
  eapply Forall_impl; [|exact F]. cbv beta. intros n Hn. lia.
Qed.

Lemma capped_ret cap {A} (x : A) : capped cap (ret x).
Proof. now apply capped_none. Qed.

Lemma capped_try cap {A B} (c : M (A * option error)) (h : error -> B) (k : A -> M B) :
  capped cap c -> (forall x, capped cap (k x)) -> capped cap (try c h k).
Proof.
  intros Hc Hk st. unfold try. destruct (Hc st) as [e1 [E1 F1]].
  destruct (c st) as [[x [e|]] st1]; cbn [fst snd] in *.
  - now exists e1.
  - destruct (Hk x st1) as [e2 [E2 F2]]. exists (e1 ++ e2).
    rewrite E2, E1, app_assoc. split; [reflexivity | now apply Forall_app].
Qed.

Lemma capped_ReadFull cap buf : capped cap (ReadFull buf).
Proof.
  apply capped_none. intros st. unfold ReadFull.
  destruct (List.length buf <=? List.length (input st))%nat; [reflexivity|].
  destruct st as [[|b inp] a]; reflexivity.
Qed.

Lemma capped_readInt32 cap : capped cap readInt32.
Proof.
  unfold readInt32. apply capped_try; [apply capped_ReadFull|]. intros. apply capped_ret.
Qed.

Lemma capped_readInt64 cap : capped cap readInt64.
Proof.
  unfold readInt64. apply capped_try; [apply capped_ReadFull|]. intros. apply capped_ret.
Qed.

(** [make] of [n] bytes and then a read into the buffer. *)
Lemma capped_make_read cap {B} n (h : error -> B) (k : list byte -> M B) :
  0 < n <= cap -> (forall x, capped cap (k x)) ->
  capped cap (b <- make n ;; b <- ReadFull b orelse h ;; k b).
Proof.
  intros Hn Hk st.
  destruct (capped_try cap (ReadFull (repeat Byte.x00 (Z.to_nat n))) h k
              (capped_ReadFull cap _) Hk (mkState (input st) (allocs st ++ [n])))
    as [e [E F]].
  exists (n :: e). split; [|now constructor].
  change (allocs (snd (try (ReadFull (repeat Byte.x00 (Z.to_nat n))) h k
                         (mkState (input st) (allocs st ++ [n])))) = allocs st ++ n :: e).
  rewrite E. cbn [allocs]. now rewrite <- app_assoc.
Qed.

Lemma capped_ReadString : capped maxStringLen ReadString.
Proof.
  unfold ReadString. apply capped_try; [apply capped_readInt32|]. intros l.
  destruct (Z.ltb_spec l 0) as [H0|H0]; cbn [orb]; [apply capped_ret|].
  destruct (Z.ltb_spec maxStringLen l) as [Hm|Hm]; [apply capped_ret|].
  destruct (Z.eqb_spec l 0) as [Hz|Hz]; [apply capped_ret|].
  apply capped_make_read; [lia|]. intros. apply capped_ret.
Qed.

Lemma maxStringLen_le_maxChunkLen : maxStringLen <= maxChunkLen.
Proof. unfold maxStringLen, maxChunkLen. lia. Qed.

Lemma capped_DecodeFileChunk : capped maxChunkLen DecodeFileChunk_from.
Proof.
  pose proof (capped_weaken _ _ _ maxStringLen_le_maxChunkLen capped_ReadString) as HS.
  unfold DecodeFileChunk_from.
  apply capped_try; [exact HS|]. intros t.
  apply capped_try; [apply capped_readInt64|]. intros o.
  apply capped_try; [apply capped_readInt32|]. intros c.
  destruct (Z.ltb_spec c 0) as [H0|H0]; cbn [orb]; [apply capped_ret|].
  destruct (Z.ltb_spec maxChunkLen c) as [Hm|Hm]; [apply capped_ret|].
  destruct (Z.eqb_spec c 0) as [Hz|Hz]; [apply capped_ret|].
  apply capped_make_read; [lia|]. intros. apply capped_ret.
Qed.

(** ** Allocation caps *)

(** X16. The decoders allocate within their caps, on every stream:
    [ReadString], and with it [DecodeHello], [DecodeFileAdvert] and
    [DecodeGetFile], allocates no buffer of more than 50,000,000 bytes;
    [DecodeFileChunk] allocates none of more than 104,857,600 bytes. No
    decoder allocates an empty buffer. *)
Theorem decoders_allocate_within_caps :
  capped maxStringLen ReadString
  /\ capped maxStringLen DecodeHello_from
  /\ capped maxStringLen DecodeFileAdvert_from
  /\ capped maxStringLen DecodeGetFile_from
  /\ capped maxChunkLen DecodeFileChunk_from.
Proof.
  repeat apply conj.
  - apply capped_ReadString.
  - apply capped_ReadString.
  - unfold DecodeFileAdvert_from.
    apply capped_try; [apply capped_ReadString|]. intros x.
    apply capped_try; [apply capped_ReadString|]. intros y.
    apply capped_try; [apply capped_readInt64|]. intros z. apply capped_ret.
  - unfold DecodeGetFile_from.
    apply capped_try; [apply capped_ReadString|]. intros x.
    apply capped_try; [apply capped_ReadString|]. intros y.
    apply capped_try; [apply capped_readInt64|]. intros z. apply capped_ret.
  - apply capped_DecodeFileChunk.
Qed.

(** ** Names *)

Lemma to_int_not_nil z :
  Z.to_int z <> Decimal.Pos Decimal.Nil /\ Z.to_int z <> Decimal.Neg Decimal.Nil.
Proof.
  pose proof (to_of (Z.to_int z)) as H. rewrite of_to in H.
  split; intros E; rewrite E in H; discriminate H.
Qed.

Lemma Sprintf_d_inj a b : Sprintf_d a = Sprintf_d b -> a = b.
Proof.
  unfold Sprintf_d. intros H. apply to_int_inj.
  destruct (to_int_not_nil a) as [Ha1 Ha2]. destruct (to_int_not_nil b) as [Hb1 Hb2].
  pose proof (NilZero.isi _ Ha1 Ha2) as Ia. pose proof (NilZero.isi _ Hb1 Hb2) as Ib.
  rewrite H in Ia. congruence.
Qed.

Lemma append_last_inj (s1 s2 : string) (c : Ascii.ascii) :
  (s1 ++ String c EmptyString = s2 ++ String c EmptyString)%string -> s1 = s2.
Proof.
  revert s2. induction s1 as [|a s1 IH]; intros [|b s2] H; cbn in H.
  - reflexivity.
  - inversion H as [[Hc Hs]]. destruct s2; discriminate Hs.
  - inversion H as [[Hc Hs]]. destruct s1; discriminate Hs.
  - inversion H. f_equal. now apply IH.
Qed.

Lemma lookup_In m table s : lookup m table = Some s -> In (m, s) table.
Proof.
  induction table as [|[k v] rest IH]; cbn [lookup]; [discriminate|].
  destruct (Z.eqb_spec k m) as [->|_]; intros H.
  - left. congruence.
  - right. now apply IH.
Qed.

Lemma MsgType_String_inj (m1 m2 : MsgType) :
  Int.is_int32 m1 -> Int.is_int32 m2 ->
  MsgType_String m1 = MsgType_String m2 -> m1 = m2.
Proof.
  intros H1 H2. unfold MsgType_String.
  rewrite (IntFacts.int32_id m1 H1), (IntFacts.int32_id m2 H2).
  destruct (lookup m1 MsgNames) as [s1|] eqn:E1;
    destruct (lookup m2 MsgNames) as [s2|] eqn:E2.
  - apply lookup_In in E1, E2. intros <-.
    cbv [MsgNames In] in E1, E2.
    repeat (destruct E1 as [E1|E1]; [inversion E1; subst; clear E1|]); try contradiction;
    repeat (destruct E2 as [E2|E2]; [inversion E2; subst; clear E2|]); try contradiction;
    reflexivity.
  - apply lookup_In in E1. cbv [MsgNames In] in E1. intros ->.
    repeat (destruct E1 as [E1|E1]; [discriminate E1|]); contradiction.
  - apply lookup_In in E2. cbv [MsgNames In] in E2. intros <-.
    repeat (destruct E2 as [E2|E2]; [discriminate E2|]); contradiction.
  - intros H. cbn in H. inversion H as [E]. apply append_last_inj in E.
    now apply Sprintf_d_inj.
Qed.

Lemma ErrorCode_String_inj (e1 e2 : ErrorCode) :
  Int.is_int32 e1 -> Int.is_int32 e2 ->
  ErrorCode_String e1 = ErrorCode_String e2 -> e1 = e2.
Proof.
  intros H1 H2. unfold ErrorCode_String.
  rewrite (IntFacts.int32_id e1 H1), (IntFacts.int32_id e2 H2).
  destruct (lookup e1 ErrorMessages) as [s1|] eqn:E1;
    destruct (lookup e2 ErrorMessages) as [s2|] eqn:E2.
  - apply lookup_In in E1, E2. intros <-.
    cbv [ErrorMessages In] in E1, E2.
    repeat (destruct E1 as [E1|E1]; [inversion E1; subst; clear E1|]); try contradiction;
    repeat (destruct E2 as [E2|E2]; [inversion E2; subst; clear E2|]); try contradiction;
    reflexivity.
  - apply lookup_In in E1. cbv [ErrorMessages In] in E1. intros ->.
    repeat (destruct E1 as [E1|E1]; [discriminate E1|]); contradiction.
  - apply lookup_In in E2. cbv [ErrorMessages In] in E2. intros <-.
    repeat (destruct E2 as [E2|E2]; [discriminate E2|]); contradiction.
  - intros H. cbn in H. inversion H as [E]. apply append_last_inj in E.
    now apply Sprintf_d_inj.
Qed.

(** ** Names of message types and error codes *)

(** X14. [MsgType.String] tells message types apart: two different types
    never have the same string, whether they are keys of [MsgNames] or
    fall back to the form [Msg(n)]. *)
Theorem MsgType_String_distinct (m1 m2 : MsgType) :
  Int.is_int32 m1 -> Int.is_int32 m2 -> m1 <> m2 ->
  MsgType_String m1 <> MsgType_String m2.
Proof. intros H1 H2 Hne E. apply Hne. now apply MsgType_String_inj. Qed.

(** [MsgHello] and the unknown types 7 and -3. *)
Lemma MsgType_String_distinct_witness :
  MsgType_String MsgHello <> MsgType_String 7
  /\ MsgType_String MsgHello = "HELLO"%string
  /\ MsgType_String 7 = "Msg(7)"%string
  /\ MsgType_String (-3) = "Msg(-3)"%string.
Proof.
  split; [|repeat split].
  apply (MsgType_String_distinct MsgHello 7).
  - unfold Int.is_int32, MsgHello. cbn. lia.
  - unfold Int.is_int32. cbn. lia.
  - discriminate.
Defined.

(** X15. [ErrorCode.String] tells error codes apart: two different codes
    never have the same string, whether they are keys of [ErrorMessages]
    or fall back to the form [ErrorCode(n)]. *)
Theorem ErrorCode_String_distinct (e1 e2 : ErrorCode) :
  Int.is_int32 e1 -> Int.is_int32 e2 -> e1 <> e2 ->
  ErrorCode_String e1 <> ErrorCode_String e2.
Proof. intros H1 H2 Hne E. apply Hne. now apply ErrorCode_String_inj. Qed.

(** [ErrInternal] and the unknown code 4. *)
Lemma ErrorCode_String_distinct_witness :
  ErrorCode_String ErrInternal <> ErrorCode_String 4
  /\ ErrorCode_String ErrInternal = "internal error"%string
  /\ ErrorCode_String 4 = "ErrorCode(4)"%string.
Proof.
  split; [|repeat split].
  apply (ErrorCode_String_distinct ErrInternal 4).
  - unfold Int.is_int32, ErrInternal. cbn. lia.
  - unfold Int.is_int32. cbn. lia.
  - discriminate.
Defined.
